(** * Tucano trackball controller: a shallow embedding of
      [src/libs/Tucano/Trackball.hpp] and the properties of its
      specification.

    Scalars.  The C++ code computes with [float]; this development reads
    every scalar as a real number, i.e. it describes the controller in
    exact arithmetic.  Comparisons of the source ([<=], [>], [!=]) become
    the decision procedures of [R], and [/] is the total division of [R]
    (the source guards its normalizations against a zero norm; the
    remaining divisors are the half extents of the viewport and the
    argument of [decreaseZoom]).

    Eigen.  [Eigen::Vector2f], [Vector3f], [Quaternion<float>] and the
    operations the trackball calls on them ([norm], [normalize], [cross],
    [dot], quaternion product, [inverse], [AngleAxis] conversion) are
    written out below with the formulas of the Eigen library.

    Camera base.  [Camera.hpp] is the base class of [Trackball]; the
    trackball only uses its view-matrix primitives, which are kept behind
    the interface [ViewOps]. *)

From Stdlib Require Import Reals Lra Bool.

Local Open Scope R_scope.

(* ================================================================= *)
(** ** Eigen vectors *)

Record Vector2f : Type := mkV2 { v2x : R; v2y : R }.
Record Vector3f : Type := mkV3 { v3x : R; v3y : R; v3z : R }.
Record Vector4f : Type := mkV4 { v4a : R; v4b : R; v4c : R; v4d : R }.

(** [v.head(2)] *)
Definition head2 (v : Vector3f) : Vector2f := mkV2 (v3x v) (v3y v).

(** [a == b] on 2-vectors: all coefficients equal. *)
Definition v2_eq_dec (a b : Vector2f) : {a = b} + {a <> b}.
Proof.
  destruct a as [ax ay], b as [bx by_].
  destruct (Req_dec_T ax bx) as [Hx | Hx].
  - destruct (Req_dec_T ay by_) as [Hy | Hy].
    + left. now subst.
    + right. intros H. apply Hy. now inversion H.
  - right. intros H. apply Hx. now inversion H.
Defined.

(** [a != b] *)
Definition v2_neqb (a b : Vector2f) : bool :=
  if v2_eq_dec a b then false else true.

Definition v2_sub (a b : Vector2f) : Vector2f :=
  mkV2 (v2x a - v2x b) (v2y a - v2y b).

Definition v3_add (a b : Vector3f) : Vector3f :=
  mkV3 (v3x a + v3x b) (v3y a + v3y b) (v3z a + v3z b).

Definition v3_scale (k : R) (a : Vector3f) : Vector3f :=
  mkV3 (k * v3x a) (k * v3y a) (k * v3z a).

Definition v3_dot (a b : Vector3f) : R :=
  v3x a * v3x b + v3y a * v3y b + v3z a * v3z b.

Definition v3_cross (a b : Vector3f) : Vector3f :=
  mkV3 (v3y a * v3z b - v3z a * v3y b)
       (v3z a * v3x b - v3x a * v3z b)
       (v3x a * v3y b - v3y a * v3x b).

Definition v3_squaredNorm (a : Vector3f) : R := v3_dot a a.

Definition v3_norm (a : Vector3f) : R := sqrt (v3_squaredNorm a).

(** [a.normalize()]: every coefficient divided by the norm. *)
Definition v3_normalize (a : Vector3f) : Vector3f :=
  mkV3 (v3x a / v3_norm a) (v3y a / v3_norm a) (v3z a / v3_norm a).

(* ================================================================= *)
(** ** Eigen quaternions *)

Record Quaternion : Type := mkQ { qw : R; qx : R; qy : R; qz : R }.

Definition q_identity : Quaternion := mkQ 1 0 0 0.

Definition q_vec (q : Quaternion) : Vector3f := mkV3 (qx q) (qy q) (qz q).

(** Hamilton product [a * b]. *)
Definition q_mul (a b : Quaternion) : Quaternion :=
  mkQ (qw a * qw b - qx a * qx b - qy a * qy b - qz a * qz b)
      (qw a * qx b + qx a * qw b + qy a * qz b - qz a * qy b)
      (qw a * qy b + qy a * qw b + qz a * qx b - qx a * qz b)
      (qw a * qz b + qz a * qw b + qx a * qy b - qy a * qx b).

Definition q_squaredNorm (q : Quaternion) : R :=
  qw q * qw q + qx q * qx q + qy q * qy q + qz q * qz q.

Definition q_norm (q : Quaternion) : R := sqrt (q_squaredNorm q).

(** [q.normalize()]: every coefficient divided by the norm. *)
Definition q_normalize (q : Quaternion) : Quaternion :=
  mkQ (qw q / q_norm q) (qx q / q_norm q) (qy q / q_norm q) (qz q / q_norm q).

(** [q.inverse()]: the conjugate over the squared norm, and the zero
    quaternion when the squared norm is not positive. *)
Definition q_inverse (q : Quaternion) : Quaternion :=
  if Rlt_dec 0 (q_squaredNorm q)
  then mkQ (qw q / q_squaredNorm q) (- qx q / q_squaredNorm q)
           (- qy q / q_squaredNorm q) (- qz q / q_squaredNorm q)
  else mkQ 0 0 0 0.

(** [q * v]: the quaternion applied to a 3-vector,
    [v + w * (2 (u x v)) + u x (2 (u x v))] with [u = q.vec()]. *)
Definition q_transform (q : Quaternion) (v : Vector3f) : Vector3f :=
  let uv := v3_scale 2 (v3_cross (q_vec q) v) in
  v3_add (v3_add v (v3_scale (qw q) uv)) (v3_cross (q_vec q) uv).

(** [Quaternion q (AngleAxis (angle, axis))]. *)
Definition q_of_angle_axis (angle : R) (axis : Vector3f) : Quaternion :=
  mkQ (cos (angle / 2))
      (sin (angle / 2) * v3x axis)
      (sin (angle / 2) * v3y axis)
      (sin (angle / 2) * v3z axis).

(* ================================================================= *)
(** ** The camera base class *)

(** The view-matrix primitives of the camera base, as an interface: the
    matrix type, the identity written by [resetViewMatrix], and the three
    operators [rotate], [translate] and [scale] that fold a transformation
    into the maintained matrix. *)
Class ViewOps (M : Type) : Type := {
  mat_identity : M;
  mat_rotate : Quaternion -> M -> M;
  mat_translate : Vector3f -> M -> M;
  mat_scale : R -> M -> M
}.

(** Modelled from the spec: the members of [Camera], the base class of
    [Trackball] declared in [Camera.hpp]: the maintained view matrix, the
    projection matrix and the viewport rectangle [(x0, y0, x1, y1)]. *)
Record Camera (M : Type) : Type := mkCamera {
  viewMatrix : M;
  projectionMatrix : M;
  viewport : Vector4f
}.
Arguments mkCamera {M} _ _ _.
Arguments viewMatrix {M} _.
Arguments projectionMatrix {M} _.
Arguments viewport {M} _.

Section CameraBase.
Context {M : Type} `{ViewOps M}.

(** Assignment to the view matrix of the camera base. *)
Definition cam_set_view (m : M) (c : Camera M) : Camera M :=
  mkCamera m (projectionMatrix c) (viewport c).

(** Modelled from the spec: [Camera::resetViewMatrix], the view matrix
    becomes the identity. *)
Definition cam_resetViewMatrix (c : Camera M) : Camera M :=
  cam_set_view mat_identity c.

(** Modelled from the spec: [Camera::rotate] folds a rotation into the
    view matrix and touches nothing else. *)
Definition cam_rotate (q : Quaternion) (c : Camera M) : Camera M :=
  cam_set_view (mat_rotate q (viewMatrix c)) c.

(** Modelled from the spec: [Camera::translate] folds a translation into
    the view matrix and touches nothing else. *)
Definition cam_translate (v : Vector3f) (c : Camera M) : Camera M :=
  cam_set_view (mat_translate v (viewMatrix c)) c.

(** Modelled from the spec: [Camera::scale] folds a uniform scale into the
    view matrix and touches nothing else. *)
Definition cam_scale (k : R) (c : Camera M) : Camera M :=
  cam_set_view (mat_scale k (viewMatrix c)) c.

(** Modelled from the spec: the viewport rectangle is configuration of
    the camera base, set by the application. *)
Definition cam_setViewport (v : Vector4f) (c : Camera M) : Camera M :=
  mkCamera (viewMatrix c) (projectionMatrix c) v.
End CameraBase.

(* ================================================================= *)
(** ** The trackball object *)

(** The data members of [class Trackball : public Camera], the base-class
    subobject first. *)
Record Trackball (M : Type) : Type := mkTrackball {
  camera : Camera M;
  zoom : R;
  rotating : bool;
  translating : bool;
  drawTrackball : bool;
  trackballProjectionMatrix : M;
  initialPosition : Vector3f;
  finalPosition : Vector3f;
  initialTranslationPosition : Vector2f;
  finalTranslationPosition : Vector2f;
  quaternion : Quaternion;
  default_quaternion : Quaternion;
  translationVector : Vector3f;
  defaultTranslation : Vector3f;
  radius : R;
  use_default_shaders : bool
}.
Arguments mkTrackball {M} _ _ _ _ _ _ _ _ _ _ _ _ _ _ _ _.
Arguments camera {M} _.
Arguments zoom {M} _.
Arguments rotating {M} _.
Arguments translating {M} _.
Arguments drawTrackball {M} _.
Arguments trackballProjectionMatrix {M} _.
Arguments initialPosition {M} _.
Arguments finalPosition {M} _.
Arguments initialTranslationPosition {M} _.
Arguments finalTranslationPosition {M} _.
Arguments quaternion {M} _.
Arguments default_quaternion {M} _.
Arguments translationVector {M} _.
Arguments defaultTranslation {M} _.
Arguments radius {M} _.
Arguments use_default_shaders {M} _.

Section Assignments.
Context {M : Type}.
Implicit Type s : Trackball M.

(** One function per assigned member: [set_f v s] is [s] after [f = v]. *)
Definition set_camera (v : Camera M) s : Trackball M :=
  mkTrackball v (zoom s) (rotating s) (translating s) (drawTrackball s)
    (trackballProjectionMatrix s) (initialPosition s) (finalPosition s)
    (initialTranslationPosition s) (finalTranslationPosition s)
    (quaternion s) (default_quaternion s) (translationVector s)
    (defaultTranslation s) (radius s) (use_default_shaders s).

Definition set_zoom (v : R) s : Trackball M :=
  mkTrackball (camera s) v (rotating s) (translating s) (drawTrackball s)
    (trackballProjectionMatrix s) (initialPosition s) (finalPosition s)
    (initialTranslationPosition s) (finalTranslationPosition s)
    (quaternion s) (default_quaternion s) (translationVector s)
    (defaultTranslation s) (radius s) (use_default_shaders s).

Definition set_rotating (v : bool) s : Trackball M :=
  mkTrackball (camera s) (zoom s) v (translating s) (drawTrackball s)
    (trackballProjectionMatrix s) (initialPosition s) (finalPosition s)
    (initialTranslationPosition s) (finalTranslationPosition s)
    (quaternion s) (default_quaternion s) (translationVector s)
    (defaultTranslation s) (radius s) (use_default_shaders s).

Definition set_translating (v : bool) s : Trackball M :=
  mkTrackball (camera s) (zoom s) (rotating s) v (drawTrackball s)
    (trackballProjectionMatrix s) (initialPosition s) (finalPosition s)
    (initialTranslationPosition s) (finalTranslationPosition s)
    (quaternion s) (default_quaternion s) (translationVector s)
    (defaultTranslation s) (radius s) (use_default_shaders s).

Definition set_drawTrackball (v : bool) s : Trackball M :=
  mkTrackball (camera s) (zoom s) (rotating s) (translating s) v
    (trackballProjectionMatrix s) (initialPosition s) (finalPosition s)
    (initialTranslationPosition s) (finalTranslationPosition s)
    (quaternion s) (default_quaternion s) (translationVector s)
    (defaultTranslation s) (radius s) (use_default_shaders s).

Definition set_trackballProjectionMatrix (v : M) s : Trackball M :=
  mkTrackball (camera s) (zoom s) (rotating s) (translating s)
    (drawTrackball s) v (initialPosition s) (finalPosition s)
    (initialTranslationPosition s) (finalTranslationPosition s)
    (quaternion s) (default_quaternion s) (translationVector s)
    (defaultTranslation s) (radius s) (use_default_shaders s).

Definition set_initialPosition (v : Vector3f) s : Trackball M :=
  mkTrackball (camera s) (zoom s) (rotating s) (translating s)
    (drawTrackball s) (trackballProjectionMatrix s) v (finalPosition s)
    (initialTranslationPosition s) (finalTranslationPosition s)
    (quaternion s) (default_quaternion s) (translationVector s)
    (defaultTranslation s) (radius s) (use_default_shaders s).

Definition set_finalPosition (v : Vector3f) s : Trackball M :=
  mkTrackball (camera s) (zoom s) (rotating s) (translating s)
    (drawTrackball s) (trackballProjectionMatrix s) (initialPosition s) v
    (initialTranslationPosition s) (finalTranslationPosition s)
    (quaternion s) (default_quaternion s) (translationVector s)
    (defaultTranslation s) (radius s) (use_default_shaders s).

Definition set_initialTranslationPosition (v : Vector2f) s : Trackball M :=
  mkTrackball (camera s) (zoom s) (rotating s) (translating s)
    (drawTrackball s) (trackballProjectionMatrix s) (initialPosition s)
    (finalPosition s) v (finalTranslationPosition s)
    (quaternion s) (default_quaternion s) (translationVector s)
    (defaultTranslation s) (radius s) (use_default_shaders s).

Definition set_finalTranslationPosition (v : Vector2f) s : Trackball M :=
  mkTrackball (camera s) (zoom s) (rotating s) (translating s)
    (drawTrackball s) (trackballProjectionMatrix s) (initialPosition s)
    (finalPosition s) (initialTranslationPosition s) v
    (quaternion s) (default_quaternion s) (translationVector s)
    (defaultTranslation s) (radius s) (use_default_shaders s).

Definition set_quaternion (v : Quaternion) s : Trackball M :=
  mkTrackball (camera s) (zoom s) (rotating s) (translating s)
    (drawTrackball s) (trackballProjectionMatrix s) (initialPosition s)
    (finalPosition s) (initialTranslationPosition s)
    (finalTranslationPosition s) v (default_quaternion s)
    (translationVector s) (defaultTranslation s) (radius s)
    (use_default_shaders s).

Definition set_default_quaternion (v : Quaternion) s : Trackball M :=
  mkTrackball (camera s) (zoom s) (rotating s) (translating s)
    (drawTrackball s) (trackballProjectionMatrix s) (initialPosition s)
    (finalPosition s) (initialTranslationPosition s)
    (finalTranslationPosition s) (quaternion s) v
    (translationVector s) (defaultTranslation s) (radius s)
    (use_default_shaders s).

Definition set_translationVector (v : Vector3f) s : Trackball M :=
  mkTrackball (camera s) (zoom s) (rotating s) (translating s)
    (drawTrackball s) (trackballProjectionMatrix s) (initialPosition s)
    (finalPosition s) (initialTranslationPosition s)
    (finalTranslationPosition s) (quaternion s) (default_quaternion s)
    v (defaultTranslation s) (radius s) (use_default_shaders s).

Definition set_defaultTranslation (v : Vector3f) s : Trackball M :=
  mkTrackball (camera s) (zoom s) (rotating s) (translating s)
    (drawTrackball s) (trackballProjectionMatrix s) (initialPosition s)
    (finalPosition s) (initialTranslationPosition s)
    (finalTranslationPosition s) (quaternion s) (default_quaternion s)
    (translationVector s) v (radius s) (use_default_shaders s).

Definition set_radius (v : R) s : Trackball M :=
  mkTrackball (camera s) (zoom s) (rotating s) (translating s)
    (drawTrackball s) (trackballProjectionMatrix s) (initialPosition s)
    (finalPosition s) (initialTranslationPosition s)
    (finalTranslationPosition s) (quaternion s) (default_quaternion s)
    (translationVector s) (defaultTranslation s) v (use_default_shaders s).
End Assignments.

(* ================================================================= *)
(** ** The member functions of [Trackball] *)

Section Methods.
Context {M : Type} `{ViewOps M}.
Implicit Type s : Trackball M.

(** Calls of the inherited primitives act on the base-class subobject. *)
Definition resetViewMatrix s : Trackball M :=
  set_camera (cam_resetViewMatrix (camera s)) s.
Definition rotate (q : Quaternion) s : Trackball M :=
  set_camera (cam_rotate q (camera s)) s.
Definition translate (v : Vector3f) s : Trackball M :=
  set_camera (cam_translate v (camera s)) s.
Definition scale (k : R) s : Trackball M :=
  set_camera (cam_scale k (camera s)) s.
Definition setViewport (v : Vector4f) s : Trackball M :=
  set_camera (cam_setViewport v (camera s)) s.
Definition getViewMatrix s : M := viewMatrix (camera s).

(** [updateViewMatrix], lines 485-493. *)
Definition updateViewMatrix s : Trackball M :=
  let s := resetViewMatrix s in
  let s := rotate (default_quaternion s) s in
  let s := translate (defaultTranslation s) s in
  let s := rotate (quaternion s) s in
  let s := translate (translationVector s) s in
  scale (zoom s) s.

(** [reset], lines 118-128. *)
Definition reset s : Trackball M :=
  let s := set_quaternion q_identity s in
  let s := set_default_quaternion q_identity s in
  let s := set_zoom 1 s in
  let s := set_translationVector (mkV3 0 0 0) s in
  let s := set_rotating false s in
  let s := set_translating false s in
  let s := resetViewMatrix s in
  updateViewMatrix s.

Definition isRotating s : bool := rotating s.
Definition isTranslating s : bool := translating s.
Definition getDefaultTranslation s : Vector3f := defaultTranslation s.
Definition getDefaultRotation s : Quaternion := default_quaternion s.
Definition getZoom s : R := zoom s.

(** [setDefaultTranslation], lines 161-164. *)
Definition setDefaultTranslation (t : Vector3f) s : Trackball M :=
  set_defaultTranslation t s.

(** [setDefaultRotation], lines 190-193.  The argument [rot] stands for
    the quaternion that Eigen's assignment builds from the given
    [Matrix3f]. *)
Definition setDefaultRotation (rot : Quaternion) s : Trackball M :=
  set_default_quaternion rot s.

Definition setTrackballProjectionMatrix (mat : M) s : Trackball M :=
  set_trackballProjectionMatrix mat s.

Definition endRotation s : Trackball M := set_rotating false s.
Definition endTranslation s : Trackball M := set_translating false s.
Definition setRenderFlag (flag : bool) s : Trackball M :=
  set_drawTrackball flag s.

(** [computeSpherePosition], lines 257-278. *)
Definition computeSpherePosition s (pos : Vector2f) : Vector3f :=
  let p := pos in
  let r := radius s in
  let z :=
    if Rle_dec (v2x p * v2x p + v2y p * v2y p) ((r * r) / 2)
    then sqrt (r * r - v2x p * v2x p - v2y p * v2y p)
    else (r * r) / (2 * sqrt (v2x p * v2x p + v2y p * v2y p)) in
  mkV3 (v2x p) (v2y p) z.

(** [initOpenGLMatrices], lines 286-295. *)
Definition initOpenGLMatrices s : Trackball M :=
  let s := reset s in
  let s := translate (defaultTranslation s) s in
  set_trackballProjectionMatrix mat_identity s.

(** [computeRotationAngle], lines 332-358. *)
Definition computeRotationAngle s : Trackball M :=
  let s :=
    if Rlt_dec 0 (v3_norm (initialPosition s))
    then set_initialPosition (v3_normalize (initialPosition s)) s
    else s in
  let s :=
    if Rlt_dec 0 (v3_norm (finalPosition s))
    then set_finalPosition (v3_normalize (finalPosition s)) s
    else s in
  let rotationAxis := v3_cross (initialPosition s) (finalPosition s) in
  let rotationAxis :=
    if Req_dec_T (v3_norm rotationAxis) 0
    then rotationAxis
    else v3_normalize rotationAxis in
  let dot := v3_dot (initialPosition s) (finalPosition s) in
  let rotationAngle := if Rle_dec dot 1 then acos dot else 0 in
  let q := q_of_angle_axis rotationAngle rotationAxis in
  let s := set_quaternion (q_mul q (quaternion s)) s in
  set_quaternion (q_normalize (quaternion s)) s.

(** [computeTranslationVector], lines 363-367. *)
Definition computeTranslationVector s : Trackball M :=
  let translationFactor :=
    v2_sub (finalTranslationPosition s) (initialTranslationPosition s) in
  set_translationVector
    (v3_add (translationVector s)
       (q_transform (q_inverse (quaternion s))
          (mkV3 (v2x translationFactor) (v2y translationFactor) 0))) s.

(** [normalizePosition], lines 374-378; [viewport] is the rectangle of
    the camera base, coefficients 0 to 3. *)
Definition normalizePosition s (pos : Vector2f) : Vector2f :=
  let vp := viewport (camera s) in
  mkV2 ((v2x pos / ((v4c vp - v4a vp) / 2)) - 1)
       (1 - (v2y pos / ((v4d vp - v4b vp) / 2))).

(** [rotateCamera], lines 384-400. *)
Definition rotateCamera (pos : Vector2f) s : Trackball M :=
  let normalized_pos := computeSpherePosition s (normalizePosition s pos) in
  if negb (rotating s) then
    let s := set_rotating true s in
    set_initialPosition normalized_pos s
  else if v2_neqb pos (head2 (initialPosition s)) then
    let s := set_finalPosition normalized_pos s in
    let s := computeRotationAngle s in
    let s := updateViewMatrix s in
    set_initialPosition (finalPosition s) s
  else s.

(** [translateCamera], lines 406-421. *)
Definition translateCamera (pos : Vector2f) s : Trackball M :=
  let normalized_pos := normalizePosition s pos in
  if negb (translating s) then
    let s := set_translating true s in
    set_initialTranslationPosition normalized_pos s
  else if v2_neqb pos (head2 (initialPosition s)) then
    let s := set_finalTranslationPosition normalized_pos s in
    let s := computeTranslationVector s in
    let s := updateViewMatrix s in
    set_initialTranslationPosition (finalTranslationPosition s) s
  else s.

(** [increaseZoom], [decreaseZoom], [applyScaleToViewMatrix],
    lines 429-455. *)
Definition increaseZoom (k : R) s : Trackball M :=
  updateViewMatrix (set_zoom (zoom s * k) s).
Definition decreaseZoom (k : R) s : Trackball M :=
  updateViewMatrix (set_zoom (zoom s / k) s).
Definition applyScaleToViewMatrix (k : R) s : Trackball M :=
  updateViewMatrix (set_zoom k s).

(** [translateViewMatrix], lines 463-466. *)
Definition translateViewMatrix (translation : Vector3f) s : Trackball M :=
  set_translationVector (v3_add (translationVector s) translation) s.

(** [rotateViewMatrix], lines 474-479.  The argument [q] stands for the
    quaternion that Eigen builds from [rot.rotation().matrix()]. *)
Definition rotateViewMatrix (q : Quaternion) s : Trackball M :=
  let s := set_quaternion (q_mul (quaternion s) q) s in
  set_quaternion (q_normalize (quaternion s)) s.

(** The constructor, lines 99-111, run on the object as it is when the
    body starts: the camera base constructed, the other members not yet
    written (the sample vectors and [use_default_shaders] are never
    written by the constructor and keep whatever [raw] holds). *)
Definition Trackball_ctor (raw : Trackball M) : Trackball M :=
  let s := set_defaultTranslation (mkV3 0 0 (-4)) raw in
  let s := set_zoom 1 s in
  let s := set_drawTrackball true s in
  let s := set_radius (8 / 10) s in
  let s := initOpenGLMatrices s in
  reset s.

(** The composition of section 4.6, as a function of the
    accumulators and the defaults. *)
Definition composedView s : M :=
  mat_scale (zoom s)
    (mat_translate (translationVector s)
       (mat_rotate (quaternion s)
          (mat_translate (defaultTranslation s)
             (mat_rotate (default_quaternion s) mat_identity)))).
End Methods.

(* ================================================================= *)
(** ** A concrete camera base: homogeneous 4x4 matrices *)

Module Affine.

(** A 4x4 matrix, row by row. *)
Record Matrix4f : Type := mkM4 {
  row0 : Vector4f; row1 : Vector4f; row2 : Vector4f; row3 : Vector4f
}.

Definition v4_dot (a b : Vector4f) : R :=
  v4a a * v4a b + v4b a * v4b b + v4c a * v4c b + v4d a * v4d b.

Definition col0 (m : Matrix4f) : Vector4f :=
  mkV4 (v4a (row0 m)) (v4a (row1 m)) (v4a (row2 m)) (v4a (row3 m)).
Definition col1 (m : Matrix4f) : Vector4f :=
  mkV4 (v4b (row0 m)) (v4b (row1 m)) (v4b (row2 m)) (v4b (row3 m)).
Definition col2 (m : Matrix4f) : Vector4f :=
  mkV4 (v4c (row0 m)) (v4c (row1 m)) (v4c (row2 m)) (v4c (row3 m)).
Definition col3 (m : Matrix4f) : Vector4f :=
  mkV4 (v4d (row0 m)) (v4d (row1 m)) (v4d (row2 m)) (v4d (row3 m)).

Definition row_times (r : Vector4f) (m : Matrix4f) : Vector4f :=
  mkV4 (v4_dot r (col0 m)) (v4_dot r (col1 m))
       (v4_dot r (col2 m)) (v4_dot r (col3 m)).

(** The matrix product [a * b]. *)
Definition m4_mul (a b : Matrix4f) : Matrix4f :=
  mkM4 (row_times (row0 a) b) (row_times (row1 a) b)
       (row_times (row2 a) b) (row_times (row3 a) b).

Definition m4_identity : Matrix4f :=
  mkM4 (mkV4 1 0 0 0) (mkV4 0 1 0 0) (mkV4 0 0 1 0) (mkV4 0 0 0 1).

Definition translation_matrix (v : Vector3f) : Matrix4f :=
  mkM4 (mkV4 1 0 0 (v3x v)) (mkV4 0 1 0 (v3y v))
       (mkV4 0 0 1 (v3z v)) (mkV4 0 0 0 1).

Definition scaling_matrix (k : R) : Matrix4f :=
  mkM4 (mkV4 k 0 0 0) (mkV4 0 k 0 0) (mkV4 0 0 k 0) (mkV4 0 0 0 1).

(** [q.toRotationMatrix()], embedded in a homogeneous matrix. *)
Definition rotation_matrix (q : Quaternion) : Matrix4f :=
  let tx := 2 * qx q in
  let ty := 2 * qy q in
  let tz := 2 * qz q in
  let twx := tx * qw q in
  let twy := ty * qw q in
  let twz := tz * qw q in
  let txx := tx * qx q in
  let txy := ty * qx q in
  let txz := tz * qx q in
  let tyy := ty * qy q in
  let tyz := tz * qy q in
  let tzz := tz * qz q in
  mkM4 (mkV4 (1 - (tyy + tzz)) (txy - twz) (txz + twy) 0)
       (mkV4 (txy + twz) (1 - (txx + tzz)) (tyz - twx) 0)
       (mkV4 (txz - twy) (tyz + twx) (1 - (txx + tyy)) 0)
       (mkV4 0 0 0 1).

(** Modelled from the spec: the transformation operators of the camera
    base declared in [Camera.hpp].  Each operator multiplies the maintained matrix by its own matrix on the
    right, so that in a sequence of calls the last one is the rightmost
    factor and applies to the point first. *)
#[global] Instance affine_ops : ViewOps Matrix4f := {
  mat_identity := m4_identity;
  mat_rotate q m := m4_mul m (rotation_matrix q);
  mat_translate v m := m4_mul m (translation_matrix v);
  mat_scale k m := m4_mul m (scaling_matrix k)
}.

End Affine.

(* ================================================================= *)
(** ** Reachable controller states *)

(** The public operations that change the object, and the viewport
    configuration of the camera base. *)
Inductive Op (M : Type) : Type :=
| OpReset
| OpSetDefaultTranslation (t : Vector3f)
| OpSetDefaultRotation (rot : Quaternion)
| OpSetTrackballProjectionMatrix (mat : M)
| OpEndRotation
| OpEndTranslation
| OpSetRenderFlag (flag : bool)
| OpInitOpenGLMatrices
| OpRotateCamera (pos : Vector2f)
| OpTranslateCamera (pos : Vector2f)
| OpIncreaseZoom (k : R)
| OpDecreaseZoom (k : R)
| OpApplyScaleToViewMatrix (k : R)
| OpTranslateViewMatrix (translation : Vector3f)
| OpRotateViewMatrix (q : Quaternion)
| OpUpdateViewMatrix
| OpComputeRotationAngle
| OpComputeTranslationVector
| OpSetViewport (v : Vector4f).
Arguments OpReset {M}.
Arguments OpSetDefaultTranslation {M} _.
Arguments OpSetDefaultRotation {M} _.
Arguments OpSetTrackballProjectionMatrix {M} _.
Arguments OpEndRotation {M}.
Arguments OpEndTranslation {M}.
Arguments OpSetRenderFlag {M} _.
Arguments OpInitOpenGLMatrices {M}.
Arguments OpRotateCamera {M} _.
Arguments OpTranslateCamera {M} _.
Arguments OpIncreaseZoom {M} _.
Arguments OpDecreaseZoom {M} _.
Arguments OpApplyScaleToViewMatrix {M} _.
Arguments OpTranslateViewMatrix {M} _.
Arguments OpRotateViewMatrix {M} _.
Arguments OpUpdateViewMatrix {M}.
Arguments OpComputeRotationAngle {M}.
Arguments OpComputeTranslationVector {M}.
Arguments OpSetViewport {M} _.

Section Reachability.
Context {M : Type} `{ViewOps M}.

Definition run_op (o : Op M) (s : Trackball M) : Trackball M :=
  match o with
  | OpReset => reset s
  | OpSetDefaultTranslation t => setDefaultTranslation t s
  | OpSetDefaultRotation rot => setDefaultRotation rot s
  | OpSetTrackballProjectionMatrix mat => setTrackballProjectionMatrix mat s
  | OpEndRotation => endRotation s
  | OpEndTranslation => endTranslation s
  | OpSetRenderFlag flag => setRenderFlag flag s
  | OpInitOpenGLMatrices => initOpenGLMatrices s
  | OpRotateCamera pos => rotateCamera pos s
  | OpTranslateCamera pos => translateCamera pos s
  | OpIncreaseZoom k => increaseZoom k s
  | OpDecreaseZoom k => decreaseZoom k s
  | OpApplyScaleToViewMatrix k => applyScaleToViewMatrix k s
  | OpTranslateViewMatrix t => translateViewMatrix t s
  | OpRotateViewMatrix q => rotateViewMatrix q s
  | OpUpdateViewMatrix => updateViewMatrix s
  | OpComputeRotationAngle => computeRotationAngle s
  | OpComputeTranslationVector => computeTranslationVector s
  | OpSetViewport v => setViewport v s
  end.

(** What a call may assume.  The argument of [rotateViewMatrix] is the
    quaternion of the rotation part that Eigen extracts from an affine
    transformation: a rotation matrix, hence a unit quaternion.  A direct
    call of [computeRotationAngle] reads the two samples of the rotation
    gesture, which the constructor leaves unwritten: it is considered
    when both hold surface points, as [rotateCamera] stores them (above
    the plane [z = 0]). *)
Definition op_admissible (o : Op M) (s : Trackball M) : Prop :=
  match o with
  | OpRotateViewMatrix q => q_norm q = 1
  | OpComputeRotationAngle =>
      0 < v3z (initialPosition s) /\ 0 < v3z (finalPosition s)
  | _ => True
  end.

(** A state is reachable when the constructor followed by a sequence of
    operations produces it. *)
Inductive reachable : Trackball M -> Prop :=
| reach_ctor : forall raw, reachable (Trackball_ctor raw)
| reach_step : forall o s,
    reachable s -> op_admissible o s -> reachable (run_op o s).
End Reachability.


(* ================================================================= *)
(** ** Predicates on controller states *)

Section StatePredicates.
Context {M : Type} `{ViewOps M}.
Implicit Type s : Trackball M.

(** The stored view matrix is the composition of the current
    accumulators and defaults. *)
Definition viewFresh s : Prop := getViewMatrix s = composedView s.

(** What the proof of the unit-norm property carries along: the
    orientation has norm one, the radius is positive, and during a
    rotation gesture the reference sample lies strictly above the
    plane [z = 0]. *)
Definition unitOrientation s : Prop :=
  q_norm (quaternion s) = 1
  /\ 0 < radius s
  /\ (rotating s = true -> 0 < v3z (initialPosition s)).
End StatePredicates.

(* ================================================================= *)
(** ** Concrete objects for the scenarios *)

Module Scenario.
Import Affine.

(** An object as the constructor body may find it: the camera base
    holds identity matrices and an empty viewport, every other member
    is zero. *)
Definition raw0 : Trackball Matrix4f :=
  mkTrackball (mkCamera m4_identity m4_identity (mkV4 0 0 0 0))
    0 false false false m4_identity
    (mkV3 0 0 0) (mkV3 0 0 0) (mkV2 0 0) (mkV2 0 0)
    (mkQ 0 0 0 0) (mkQ 0 0 0 0) (mkV3 0 0 0) (mkV3 0 0 0) 0 false.

(** The freshly constructed controller. *)
Definition fresh0 : Trackball Matrix4f := Trackball_ctor raw0.

(** The controller of the scenarios: defaults, viewport
    [(0, 0, 800, 600)]. *)
Definition start : Trackball Matrix4f :=
  setViewport (mkV4 0 0 800 600) fresh0.

(** The angle between the unit samples over the normalized points
    [(0, 0)] and [(0.5, 0)], as [computeRotationAngle] computes it. *)
Definition drag_angle : R := acos (sqrt (39 / 100) / (8 / 10)).

(** A rotation gesture begun at the centre of the viewport. *)
Definition begun : Trackball Matrix4f := rotateCamera (mkV2 400 300) start.

(** The gesture continued to the screen point [(600, 300)]. *)
Definition dragged : Trackball Matrix4f := rotateCamera (mkV2 600 300) begun.

(** A click-and-release rotation at the centre followed by the start of
    a translation gesture at the same point. *)
Definition panning : Trackball Matrix4f :=
  translateCamera (mkV2 400 300)
    (endRotation (rotateCamera (mkV2 400 300) start)).

(** A controller whose default orientation was configured as the half
    turn about the x axis. *)
Definition tilted : Trackball Matrix4f :=
  setDefaultRotation (mkQ 0 1 0 0) fresh0.
End Scenario.

(* ================================================================= *)
(** ** The steps of [computeRotationAngle] in closed form *)

(** The guarded normalization of lines 336-341: a vector of positive norm
    is normalized, any other is kept. *)
Definition normalized_if_positive (v : Vector3f) : Vector3f :=
  if Rlt_dec 0 (v3_norm v) then v3_normalize v else v.

(** The incremental rotation of lines 343-354, from the two samples as
    they are after the guarded normalization. *)
Definition rotation_increment (a b : Vector3f) : Quaternion :=
  let rotationAxis := v3_cross a b in
  let rotationAxis :=
    if Req_dec_T (v3_norm rotationAxis) 0
    then rotationAxis
    else v3_normalize rotationAxis in
  let dot := v3_dot a b in
  let rotationAngle := if Rle_dec dot 1 then acos dot else 0 in
  q_of_angle_axis rotationAngle rotationAxis.

From Stdlib Require Import List Permutation.

(* ================================================================= *)
(** ** Further notions used by the statements *)


(** [-v]. *)
Definition v3_opp (v : Vector3f) : Vector3f :=
  mkV3 (- v3x v) (- v3y v) (- v3z v).

(** The operations that end with a call of [updateViewMatrix] on every
    path that changes an accumulator, and those that change neither an
    accumulator nor a default. *)
Definition op_recomputes {M : Type} (o : Op M) : bool :=
  match o with
  | OpReset | OpSetTrackballProjectionMatrix _ | OpEndRotation
  | OpEndTranslation | OpSetRenderFlag _ | OpRotateCamera _
  | OpTranslateCamera _ | OpIncreaseZoom _ | OpDecreaseZoom _
  | OpApplyScaleToViewMatrix _ | OpUpdateViewMatrix | OpSetViewport _ => true
  | OpSetDefaultTranslation _ | OpSetDefaultRotation _
  | OpInitOpenGLMatrices | OpTranslateViewMatrix _ | OpRotateViewMatrix _
  | OpComputeRotationAngle | OpComputeTranslationVector => false
  end.

(** A sequence of operations, run from left to right. *)
Fixpoint run_ops {M : Type} `{ViewOps M} (os : list (Op M)) (s : Trackball M)
  : Trackball M :=
  match os with
  | nil => s
  | cons o os' => run_ops os' (run_op o s)
  end.




(** The zoom arguments of an operation are positive. *)
Definition op_zoom_positive {M : Type} (o : Op M) : Prop :=
  match o with
  | OpIncreaseZoom k | OpDecreaseZoom k | OpApplyScaleToViewMatrix k => 0 < k
  | _ => True
  end.

(** The operation does not reconfigure the default translation. *)
Definition op_keeps_default_translation {M : Type} (o : Op M) : Prop :=
  match o with
  | OpSetDefaultTranslation _ => False
  | _ => True
  end.

(* ================================================================= *)
(** ** Bounding boxes: [src/libs/Tucano/BoundingBox3.hpp] *)

Module BoundingBox3.

(** [std::min (a, b)] and [std::max (a, b)]. *)
Definition std_min (a b : R) : R := if Rlt_dec b a then b else a.
Definition std_max (a b : R) : R := if Rlt_dec a b then b else a.

(** The template [BoundingBox3<Real>] at the real numbers.  The members
    [min_] and [max_] are the ones every function below reads; the basis
    of the oriented box is written by [reset] and by one overload of
    [fromPointCloud] and read by none of the functions modelled here, and
    it is left out; [operator=] and the copy constructor do not copy it
    either. *)
Record Box : Type := mkBox { min_ : Vector3f; max_ : Vector3f }.

(** The constructor from six coordinates, lines 67-71. *)
Definition box6 (xMin yMin zMin xMax yMax zMax : R) : Box :=
  mkBox (mkV3 xMin yMin zMin) (mkV3 xMax yMax zMax).

(** [Min] and [Max], lines 213-221. *)
Definition Min (b : Box) : Vector3f := min_ b.
Definition Max (b : Box) : Vector3f := max_ b.

(** [reset], lines 73-83; [real_max] stands for
    [std::numeric_limits<Real>::max()]. *)
Definition reset (real_max : R) : Box :=
  mkBox (mkV3 real_max real_max real_max)
        (mkV3 (- real_max) (- real_max) (- real_max)).

(** [operator=], lines 233-239: the assigned object takes [Min] and [Max]
    of the argument. *)
Definition assign (this box : Box) : Box := mkBox (Min box) (Max box).

(** [operator+] with a box, lines 241-249. *)
Definition plus (this box : Box) : Box :=
  box6 (std_min (v3x (min_ this)) (v3x (Min box)))
       (std_min (v3y (min_ this)) (v3y (Min box)))
       (std_min (v3z (min_ this)) (v3z (Min box)))
       (std_max (v3x (max_ this)) (v3x (Max box)))
       (std_max (v3y (max_ this)) (v3y (Max box)))
       (std_max (v3z (max_ this)) (v3z (Max box))).

(** [operator+] with a point, lines 251-259. *)
Definition plus_point (this : Box) (new_point : Vector3f) : Box :=
  box6 (std_min (v3x (min_ this)) (v3x new_point))
       (std_min (v3y (min_ this)) (v3y new_point))
       (std_min (v3z (min_ this)) (v3z new_point))
       (std_max (v3x (max_ this)) (v3x new_point))
       (std_max (v3y (max_ this)) (v3y new_point))
       (std_max (v3z (max_ this)) (v3z new_point)).

(** One turn of the loop of [fromPointCloud], lines 89-104: the box of
    the current bounds extended by the point, then
    [*this = *this + box]. *)
Definition cloud_step (this : Box) (new_point : Vector3f) : Box :=
  let box :=
    box6 (std_min (v3x (min_ this)) (v3x new_point))
         (std_min (v3y (min_ this)) (v3y new_point))
         (std_min (v3z (min_ this)) (v3z new_point))
         (std_max (v3x (max_ this)) (v3x new_point))
         (std_max (v3y (max_ this)) (v3y new_point))
         (std_max (v3z (max_ this)) (v3z new_point)) in
  assign this (plus this box).

(** [fromPointCloud] over a range of 3-vectors, lines 85-106: [reset],
    then the loop over the points from first to last. *)
Definition fromPointCloud (real_max : R) (points : list Vector3f) : Box :=
  fold_left cloud_step points (reset real_max).

(** [diagonal], lines 199-206. *)
Definition diagonal (b : Box) : R :=
  sqrt ((v3x (min_ b) - v3x (max_ b)) * (v3x (min_ b) - v3x (max_ b))
        + (v3y (min_ b) - v3y (max_ b)) * (v3y (min_ b) - v3y (max_ b))
        + (v3z (min_ b) - v3z (max_ b)) * (v3z (min_ b) - v3z (max_ b))).

(** [center], lines 208-211. *)
Definition center (b : Box) : Vector3f :=
  v3_scale (1 / 2) (v3_add (max_ b) (min_ b)).

(** [intersect] with a box, lines 268-273. *)
Definition intersect (this box : Box) : bool :=
  (if Rgt_dec (v3x (Max box)) (v3x (min_ this)) then true else false)
  && (if Rlt_dec (v3x (Min box)) (v3x (max_ this)) then true else false)
  && (if Rgt_dec (v3y (Max box)) (v3y (min_ this)) then true else false)
  && (if Rlt_dec (v3y (Min box)) (v3y (max_ this)) then true else false)
  && (if Rgt_dec (v3z (Max box)) (v3z (min_ this)) then true else false)
  && (if Rlt_dec (v3z (Min box)) (v3z (max_ this)) then true else false).

(** A point lies within the bounds of a box, coordinate by coordinate. *)
Definition bounds (b : Box) (p : Vector3f) : Prop :=
  v3x (min_ b) <= v3x p <= v3x (max_ b)
  /\ v3y (min_ b) <= v3y p <= v3y (max_ b)
  /\ v3z (min_ b) <= v3z p <= v3z (max_ b).

End BoundingBox3.
(* ================================================================= *)
(** ** The view-matrix composer *)

(** Projections of assignments, computed without unfolding anything
    else. *)
Tactic Notation "simpl_fields" :=
  cbn [set_camera set_zoom set_rotating set_translating set_drawTrackball
       set_trackballProjectionMatrix set_initialPosition set_finalPosition
       set_initialTranslationPosition set_finalTranslationPosition
       set_quaternion set_default_quaternion set_translationVector
       set_defaultTranslation set_radius
       cam_set_view camera zoom rotating translating drawTrackball
       trackballProjectionMatrix initialPosition finalPosition
       initialTranslationPosition finalTranslationPosition quaternion
       default_quaternion translationVector defaultTranslation radius
       use_default_shaders viewMatrix projectionMatrix viewport].

Tactic Notation "simpl_fields" "in" hyp(H) :=
  cbn [set_camera set_zoom set_rotating set_translating set_drawTrackball
       set_trackballProjectionMatrix set_initialPosition set_finalPosition
       set_initialTranslationPosition set_finalTranslationPosition
       set_quaternion set_default_quaternion set_translationVector
       set_defaultTranslation set_radius
       cam_set_view camera zoom rotating translating drawTrackball
       trackballProjectionMatrix initialPosition finalPosition
       initialTranslationPosition finalTranslationPosition quaternion
       default_quaternion translationVector defaultTranslation radius
       use_default_shaders viewMatrix projectionMatrix viewport] in H.

(** Entries of products of homogeneous matrices, written out. *)
Ltac matrix_entries :=
  cbv [mat_scale mat_translate mat_rotate mat_identity Affine.affine_ops
       Affine.m4_mul Affine.row_times Affine.v4_dot
       Affine.col0 Affine.col1 Affine.col2 Affine.col3
       Affine.row0 Affine.row1 Affine.row2 Affine.row3
       Affine.rotation_matrix Affine.translation_matrix
       Affine.scaling_matrix Affine.m4_identity
       v4a v4b v4c v4d q_identity qw qx qy qz v3x v3y v3z].

Section Composer.
Context {M : Type} `{ViewOps M}.
Implicit Type s : Trackball M.

Lemma updateViewMatrix_eq s :
  updateViewMatrix s = set_camera (cam_set_view (composedView s) (camera s)) s.
Proof. reflexivity. Qed.

(** C1.  [updateViewMatrix] rebuilds the view matrix from the identity,
    whatever matrix was stored before: rotation by the default
    quaternion, translation by the default translation, rotation by the
    accumulated quaternion, translation by the accumulated vector and
    scale by the zoom factor are folded in, in this order; no other
    member of the object changes. *)
Theorem C1_updateViewMatrix_composition s :
  getViewMatrix (updateViewMatrix s) =
    mat_scale (zoom s)
      (mat_translate (translationVector s)
         (mat_rotate (quaternion s)
            (mat_translate (defaultTranslation s)
               (mat_rotate (default_quaternion s) mat_identity))))
  /\ (forall m, getViewMatrix (updateViewMatrix (set_camera
                  (cam_set_view m (camera s)) s))
                = getViewMatrix (updateViewMatrix s))
  /\ updateViewMatrix s
     = set_camera (cam_set_view (getViewMatrix (updateViewMatrix s))
                     (camera s)) s.
Proof. repeat split. Qed.

Lemma viewFresh_updateViewMatrix s : viewFresh (updateViewMatrix s).
Proof. reflexivity. Qed.

Lemma viewFresh_reset s : viewFresh (reset s).
Proof. reflexivity. Qed.

Lemma viewFresh_setViewport s v : viewFresh s -> viewFresh (setViewport v s).
Proof. intros Hf. exact Hf. Qed.
End Composer.

(** On homogeneous matrices the composition is the matrix product
    [I * R(q_default) * T(t_default) * R(q) * T(t) * S(z)]. *)
Lemma updateViewMatrix_affine (s : Trackball Affine.Matrix4f) :
  getViewMatrix (updateViewMatrix s) =
    Affine.m4_mul
      (Affine.m4_mul
         (Affine.m4_mul
            (Affine.m4_mul
               (Affine.m4_mul Affine.m4_identity
                  (Affine.rotation_matrix (default_quaternion s)))
               (Affine.translation_matrix (defaultTranslation s)))
            (Affine.rotation_matrix (quaternion s)))
         (Affine.translation_matrix (translationVector s)))
      (Affine.scaling_matrix (zoom s)).
Proof. reflexivity. Qed.

(* ================================================================= *)
(** ** Frame properties of the configuration operations *)

Section Frames.
Context {M : Type} `{ViewOps M}.
Implicit Type s : Trackball M.

(** C2 (as amended).  [reset] restores the gesture-driven members
    (identity orientation, zero translation, zoom one, both gesture
    flags off) and also sets the default orientation to the identity;
    the viewport, the default translation, both projection matrices,
    the radius and the render flag are left as they were. *)
Theorem C2_reset_effect s :
  quaternion (reset s) = q_identity
  /\ translationVector (reset s) = mkV3 0 0 0
  /\ zoom (reset s) = 1
  /\ rotating (reset s) = false
  /\ translating (reset s) = false
  /\ default_quaternion (reset s) = q_identity
  /\ viewport (camera (reset s)) = viewport (camera s)
  /\ defaultTranslation (reset s) = defaultTranslation s
  /\ projectionMatrix (camera (reset s)) = projectionMatrix (camera s)
  /\ trackballProjectionMatrix (reset s) = trackballProjectionMatrix s
  /\ radius (reset s) = radius s
  /\ drawTrackball (reset s) = drawTrackball s.
Proof. repeat split. Qed.

(** The two setters of the defaults assign one member each and leave the
    stored view matrix alone; a direct [updateViewMatrix] afterwards
    composes with the new default. *)
Lemma setDefault_frame s (t : Vector3f) (rot : Quaternion) :
  setDefaultTranslation t s = set_defaultTranslation t s
  /\ setDefaultRotation rot s = set_default_quaternion rot s
  /\ getViewMatrix (setDefaultTranslation t s) = getViewMatrix s
  /\ getViewMatrix (setDefaultRotation rot s) = getViewMatrix s
  /\ (viewFresh s ->
      getViewMatrix (setDefaultTranslation t s) = composedView s
      /\ getViewMatrix (setDefaultRotation rot s) = composedView s)
  /\ getViewMatrix (updateViewMatrix (setDefaultTranslation t s))
     = mat_scale (zoom s)
         (mat_translate (translationVector s)
            (mat_rotate (quaternion s)
               (mat_translate t
                  (mat_rotate (default_quaternion s) mat_identity))))
  /\ getViewMatrix (updateViewMatrix (setDefaultRotation rot s))
     = mat_scale (zoom s)
         (mat_translate (translationVector s)
            (mat_rotate (quaternion s)
               (mat_translate (defaultTranslation s)
                  (mat_rotate rot mat_identity)))).
Proof.
  split; [reflexivity|]. split; [reflexivity|].
  split; [reflexivity|]. split; [reflexivity|].
  split; [|split; reflexivity].
  intros Hf. split; exact Hf.
Qed.

Lemma rotateCamera_idle s p :
  rotating s = false ->
  rotateCamera p s
  = set_initialPosition (computeSpherePosition s (normalizePosition s p))
      (set_rotating true s).
Proof. intros Hidle. unfold rotateCamera. rewrite Hidle. reflexivity. Qed.

Lemma translateCamera_idle s p :
  translating s = false ->
  translateCamera p s
  = set_initialTranslationPosition (normalizePosition s p)
      (set_translating true s).
Proof. intros Hidle. unfold translateCamera. rewrite Hidle. reflexivity. Qed.

(** C8 (as amended).  With the gesture flag off, [rotateCamera]
    (resp. [translateCamera]) starts the gesture: the flag is set, the
    surface point of the normalized position (resp. the normalized
    position) becomes the reference sample, and nothing else changes;
    in particular the accumulators and the view matrix are kept. *)
Theorem C8_update_while_idle_begins s (p : Vector2f) :
  (rotating s = false ->
     rotateCamera p s
     = set_initialPosition (computeSpherePosition s (normalizePosition s p))
         (set_rotating true s))
  /\ (translating s = false ->
     translateCamera p s
     = set_initialTranslationPosition (normalizePosition s p)
         (set_translating true s)).
Proof.
  split; intros Hidle.
  - now apply rotateCamera_idle.
  - now apply translateCamera_idle.
Qed.

(** What a gesture start keeps. *)
Lemma begin_rotation_frame s p :
  rotating s = false ->
  let s' := rotateCamera p s in
  rotating s' = true
  /\ quaternion s' = quaternion s
  /\ translationVector s' = translationVector s
  /\ zoom s' = zoom s
  /\ getViewMatrix s' = getViewMatrix s
  /\ translating s' = translating s
  /\ initialTranslationPosition s' = initialTranslationPosition s.
Proof.
  intros Hidle. cbv zeta. unfold rotateCamera. rewrite Hidle.
  repeat split.
Qed.

Lemma begin_translation_frame s p :
  translating s = false ->
  let s' := translateCamera p s in
  translating s' = true
  /\ quaternion s' = quaternion s
  /\ translationVector s' = translationVector s
  /\ zoom s' = zoom s
  /\ getViewMatrix s' = getViewMatrix s
  /\ rotating s' = rotating s
  /\ initialPosition s' = initialPosition s.
Proof.
  intros Hidle. cbv zeta. unfold translateCamera. rewrite Hidle.
  repeat split.
Qed.
End Frames.

(** C2, the claim as stated fails: with a configured default
    orientation, [reset] does not keep it. *)
Lemma C2_reset_discards_default_orientation :
  ~ (quaternion (reset Scenario.tilted) = q_identity
     /\ translationVector (reset Scenario.tilted) = mkV3 0 0 0
     /\ zoom (reset Scenario.tilted) = 1
     /\ rotating (reset Scenario.tilted) = false
     /\ translating (reset Scenario.tilted) = false
     /\ viewport (camera (reset Scenario.tilted))
        = viewport (camera Scenario.tilted)
     /\ default_quaternion (reset Scenario.tilted)
        = default_quaternion Scenario.tilted
     /\ defaultTranslation (reset Scenario.tilted)
        = defaultTranslation Scenario.tilted
     /\ projectionMatrix (camera (reset Scenario.tilted))
        = projectionMatrix (camera Scenario.tilted)
     /\ trackballProjectionMatrix (reset Scenario.tilted)
        = trackballProjectionMatrix Scenario.tilted).
Proof.
  intros (_ & _ & _ & _ & _ & _ & Hq & _).
  cbn in Hq. injection Hq as Hw _. lra.
Qed.

(** C8, the claim as stated fails: on the idle controller of the
    scenario a call of [rotateCamera] is not a no-op, it turns the
    rotation flag on. *)
Lemma C8_idle_update_changes_state :
  rotating Scenario.start = false
  /\ rotateCamera (mkV2 400 300) Scenario.start <> Scenario.start.
Proof.
  split; [reflexivity|].
  intros Heq. apply (f_equal rotating) in Heq.
  cbn in Heq. discriminate.
Qed.

(** C8 applied to the controller of the scenario. *)
Lemma C8_update_while_idle_begins_witness :
  (rotating Scenario.start = false
   /\ rotateCamera (mkV2 400 300) Scenario.start
      = set_initialPosition
          (computeSpherePosition Scenario.start
             (normalizePosition Scenario.start (mkV2 400 300)))
          (set_rotating true Scenario.start))
  /\ (translating Scenario.start = false
      /\ translateCamera (mkV2 400 300) Scenario.start
         = set_initialTranslationPosition
             (normalizePosition Scenario.start (mkV2 400 300))
             (set_translating true Scenario.start)).
Proof.
  split.
  - split; [reflexivity|].
    exact (proj1 (C8_update_while_idle_begins Scenario.start (mkV2 400 300))
             eq_refl).
  - split; [reflexivity|].
    exact (proj2 (C8_update_while_idle_begins Scenario.start (mkV2 400 300))
             eq_refl).
Defined.

(* ================================================================= *)
(** ** Norms, normalization and the quaternion product *)

Lemma v3_squaredNorm_nonneg a : 0 <= v3_squaredNorm a.
Proof.
  unfold v3_squaredNorm, v3_dot.
  pose proof (Rle_0_sqr (v3x a)). pose proof (Rle_0_sqr (v3y a)).
  pose proof (Rle_0_sqr (v3z a)). unfold Rsqr in *. lra.
Qed.

Lemma v3_norm_nonneg a : 0 <= v3_norm a.
Proof. apply sqrt_pos. Qed.

Lemma v3_norm_sqr a : v3_norm a * v3_norm a = v3_squaredNorm a.
Proof. apply sqrt_sqrt, v3_squaredNorm_nonneg. Qed.

Lemma v3_norm_pos_of_z a : 0 < v3z a -> 0 < v3_norm a.
Proof.
  intros Hz. apply sqrt_lt_R0.
  unfold v3_squaredNorm, v3_dot.
  pose proof (Rle_0_sqr (v3x a)). pose proof (Rle_0_sqr (v3y a)).
  assert (0 < v3z a * v3z a) by (apply Rmult_lt_0_compat; assumption).
  unfold Rsqr in *. lra.
Qed.

Lemma v3_norm_zero_inv a : v3_norm a = 0 -> a = mkV3 0 0 0.
Proof.
  intros Hn. apply sqrt_eq_0 in Hn; [|apply v3_squaredNorm_nonneg].
  unfold v3_squaredNorm, v3_dot in Hn. destruct a as [x y z]; cbn in *.
  pose proof (Rle_0_sqr x) as Hx. pose proof (Rle_0_sqr y) as Hy.
  pose proof (Rle_0_sqr z) as Hz. unfold Rsqr in *.
  assert (x * x = 0) as Ex by lra. assert (y * y = 0) as Ey by lra.
  assert (z * z = 0) as Ez by lra.
  apply Rsqr_0_uniq in Ex. apply Rsqr_0_uniq in Ey. apply Rsqr_0_uniq in Ez.
  now subst.
Qed.

Lemma v3_squaredNorm_normalize a :
  0 < v3_norm a -> v3_squaredNorm (v3_normalize a) = 1.
Proof.
  intros Hpos. pose proof (v3_norm_sqr a) as Hsq.
  unfold v3_squaredNorm, v3_dot in *. unfold v3_normalize; cbn.
  set (n := v3_norm a) in *.
  transitivity ((v3x a * v3x a + v3y a * v3y a + v3z a * v3z a) / (n * n)).
  - field. lra.
  - rewrite <- Hsq. field. lra.
Qed.

Lemma v3_norm_normalize a : 0 < v3_norm a -> v3_norm (v3_normalize a) = 1.
Proof.
  intros Hpos. unfold v3_norm at 1.
  rewrite v3_squaredNorm_normalize by assumption. apply sqrt_1.
Qed.

Lemma v3_normalize_unit a : v3_norm a = 1 -> v3_normalize a = a.
Proof.
  intros Hn. unfold v3_normalize. rewrite Hn. destruct a; cbn.
  f_equal; field.
Qed.

Lemma v3_normalize_z_pos a : 0 < v3z a -> 0 < v3z (v3_normalize a).
Proof.
  intros Hz. cbn. apply Rdiv_lt_0_compat; [assumption|].
  now apply v3_norm_pos_of_z.
Qed.

Lemma v3_cross_self a : v3_cross a a = mkV3 0 0 0.
Proof. unfold v3_cross. f_equal; ring. Qed.

Lemma v3_norm_zero : v3_norm (mkV3 0 0 0) = 0.
Proof.
  unfold v3_norm, v3_squaredNorm, v3_dot; cbn.
  replace (0 * 0 + 0 * 0 + 0 * 0) with 0 by ring. apply sqrt_0.
Qed.

Lemma q_squaredNorm_nonneg q : 0 <= q_squaredNorm q.
Proof.
  unfold q_squaredNorm.
  pose proof (Rle_0_sqr (qw q)). pose proof (Rle_0_sqr (qx q)).
  pose proof (Rle_0_sqr (qy q)). pose proof (Rle_0_sqr (qz q)).
  unfold Rsqr in *. lra.
Qed.

Lemma q_norm_nonneg q : 0 <= q_norm q.
Proof. apply sqrt_pos. Qed.

Lemma q_norm_sqr q : q_norm q * q_norm q = q_squaredNorm q.
Proof. apply sqrt_sqrt, q_squaredNorm_nonneg. Qed.

Lemma q_squaredNorm_mul a b :
  q_squaredNorm (q_mul a b) = q_squaredNorm a * q_squaredNorm b.
Proof. unfold q_squaredNorm, q_mul; cbn. ring. Qed.

Lemma q_norm_mul a b : q_norm (q_mul a b) = q_norm a * q_norm b.
Proof.
  unfold q_norm. rewrite q_squaredNorm_mul.
  apply sqrt_mult; apply q_squaredNorm_nonneg.
Qed.

Lemma q_norm_identity : q_norm q_identity = 1.
Proof.
  unfold q_norm, q_squaredNorm; cbn.
  replace (1 * 1 + 0 * 0 + 0 * 0 + 0 * 0) with 1 by ring. apply sqrt_1.
Qed.

Lemma q_norm_normalize q : 0 < q_norm q -> q_norm (q_normalize q) = 1.
Proof.
  intros Hpos. pose proof (q_norm_sqr q) as Hsq.
  unfold q_norm at 1. unfold q_squaredNorm in *. unfold q_normalize; cbn.
  set (n := q_norm q) in *.
  replace (qw q / n * (qw q / n) + qx q / n * (qx q / n)
           + qy q / n * (qy q / n) + qz q / n * (qz q / n))
    with ((qw q * qw q + qx q * qx q + qy q * qy q + qz q * qz q) / (n * n))
    by (field; lra).
  rewrite <- Hsq. replace (n * n / (n * n)) with 1 by (field; lra).
  apply sqrt_1.
Qed.

Lemma q_normalize_unit q : q_norm q = 1 -> q_normalize q = q.
Proof.
  intros Hn. unfold q_normalize. rewrite Hn. destruct q; cbn.
  f_equal; field.
Qed.

Lemma q_norm_zero_inv q : q_norm q = 0 -> q = mkQ 0 0 0 0.
Proof.
  intros Hn. apply sqrt_eq_0 in Hn; [|apply q_squaredNorm_nonneg].
  unfold q_squaredNorm in Hn. destruct q as [w x y z]; cbn in *.
  pose proof (Rle_0_sqr w) as Hw. pose proof (Rle_0_sqr x) as Hx.
  pose proof (Rle_0_sqr y) as Hy. pose proof (Rle_0_sqr z) as Hz.
  unfold Rsqr in *.
  assert (w * w = 0) as Ew by lra. assert (x * x = 0) as Ex by lra.
  assert (y * y = 0) as Ey by lra. assert (z * z = 0) as Ez by lra.
  apply Rsqr_0_uniq in Ew. apply Rsqr_0_uniq in Ex.
  apply Rsqr_0_uniq in Ey. apply Rsqr_0_uniq in Ez.
  now subst.
Qed.

(** Multiplying by a positive real quaternion on the left does not change
    the normalized quaternion. *)
Lemma q_normalize_real_factor c q :
  0 < c ->
  q_normalize (q_mul (mkQ c 0 0 0) (q_normalize q)) = q_normalize q.
Proof.
  intros Hc.
  destruct (Req_dec_T (q_norm q) 0) as [Hz | Hnz].
  - apply q_norm_zero_inv in Hz. subst q.
    unfold q_normalize, q_mul; cbn. f_equal; unfold Rdiv; ring.
  - assert (0 < q_norm q) as Hpos by (pose proof (q_norm_nonneg q); lra).
    pose proof (q_norm_normalize q Hpos) as Hunit.
    set (u := q_normalize q) in *.
    assert (q_norm (q_mul (mkQ c 0 0 0) u) = c) as Hn.
    { rewrite q_norm_mul, Hunit. unfold q_norm, q_squaredNorm; cbn.
      replace (c * c + 0 * 0 + 0 * 0 + 0 * 0) with (c * c) by ring.
      rewrite sqrt_square; lra. }
    unfold q_normalize at 1. rewrite Hn. destruct u as [w x y z]; cbn.
    f_equal; field; lra.
Qed.

(** The norm of the quaternion of an angle and an axis. *)
Lemma q_squaredNorm_angle_axis angle axis :
  q_squaredNorm (q_of_angle_axis angle axis)
  = cos (angle / 2) * cos (angle / 2)
    + sin (angle / 2) * sin (angle / 2) * v3_squaredNorm axis.
Proof.
  unfold q_squaredNorm, q_of_angle_axis, v3_squaredNorm, v3_dot; cbn. ring.
Qed.

Lemma q_norm_angle_unit_axis angle axis :
  v3_norm axis = 1 -> q_norm (q_of_angle_axis angle axis) = 1.
Proof.
  intros Hax. unfold q_norm. rewrite q_squaredNorm_angle_axis.
  rewrite <- (v3_norm_sqr axis), Hax.
  pose proof (sin2_cos2 (angle / 2)) as Hsc. unfold Rsqr in Hsc.
  replace (cos (angle / 2) * cos (angle / 2)
           + sin (angle / 2) * sin (angle / 2) * (1 * 1)) with 1 by lra.
  apply sqrt_1.
Qed.

Lemma q_angle_zero_axis angle :
  q_of_angle_axis angle (mkV3 0 0 0) = mkQ (cos (angle / 2)) 0 0 0.
Proof. unfold q_of_angle_axis; cbn. f_equal; ring. Qed.

Lemma q_norm_real c : 0 <= c -> q_norm (mkQ c 0 0 0) = c.
Proof.
  intros Hc. unfold q_norm, q_squaredNorm; cbn.
  replace (c * c + 0 * 0 + 0 * 0 + 0 * 0) with (c * c) by ring.
  now apply sqrt_square.
Qed.

(** Half of an angle returned by [acos] below a straight angle has a
    positive cosine. *)
Lemma cos_half_acos_pos d : -1 < d -> 0 < cos (acos d / 2).
Proof.
  intros Hd. pose proof PI_RGT_0 as Hpi.
  assert (0 <= acos d < PI) as Hb.
  { destruct (Rlt_dec d 1) as [Hlt | Hge].
    - pose proof (acos_bound_lt d (conj Hd Hlt)). lra.
    - destruct (Req_dec_T d 1) as [-> | Hne].
      + rewrite acos_1. lra.
      + assert (1 <= d) as H1 by lra.
        unfold acos. destruct (Rle_dec d (-1)); [lra|].
        destruct (Rle_dec 1 d); lra. }
  apply cos_gt_0; lra.
Qed.

(* ================================================================= *)
(** ** The surface point *)

Section Projection.
Context {M : Type}.
Implicit Type s : Trackball M.

(** C4.  [computeSpherePosition] keeps the two coordinates of the
    normalized point and adds the height of the sphere,
    [sqrt (r^2 - x^2 - y^2)], when [x^2 + y^2 <= r^2 / 2], and the height
    of the hyperbolic sheet, [r^2 / (2 sqrt (x^2 + y^2))], otherwise.
    The point is returned as computed, without normalization. *)
Theorem C4_computeSpherePosition_cases s (p : Vector2f) :
  (v2x p * v2x p + v2y p * v2y p <= (radius s * radius s) / 2 ->
     computeSpherePosition s p
     = mkV3 (v2x p) (v2y p)
         (sqrt (radius s * radius s - v2x p * v2x p - v2y p * v2y p)))
  /\ (~ v2x p * v2x p + v2y p * v2y p <= (radius s * radius s) / 2 ->
     computeSpherePosition s p
     = mkV3 (v2x p) (v2y p)
         ((radius s * radius s)
          / (2 * sqrt (v2x p * v2x p + v2y p * v2y p))))
  /\ head2 (computeSpherePosition s p) = p.
Proof.
  unfold computeSpherePosition. cbv zeta.
  destruct (Rle_dec (v2x p * v2x p + v2y p * v2y p)
              (radius s * radius s / 2)) as [Hin | Hout].
  - split; [reflexivity|]. split; [tauto|]. now destruct p.
  - split; [tauto|]. split; [reflexivity|]. now destruct p.
Qed.

(** With a positive radius the surface point lies strictly above the
    plane [z = 0]. *)
Lemma computeSpherePosition_z_pos s p :
  0 < radius s -> 0 < v3z (computeSpherePosition s p).
Proof.
  intros Hr. unfold computeSpherePosition; cbn.
  set (r := radius s) in *. set (x := v2x p). set (y := v2y p).
  assert (0 < r * r) as Hrr by (apply Rmult_lt_0_compat; assumption).
  destruct (Rle_dec (x * x + y * y) (r * r / 2)) as [Hin | Hout].
  - apply sqrt_lt_R0. lra.
  - apply Rdiv_lt_0_compat; [assumption|].
    apply Rmult_lt_0_compat; [lra|]. apply sqrt_lt_R0. lra.
Qed.

End Projection.

(* ================================================================= *)
(** ** The rotation update *)

Lemma normalized_if_positive_idem v :
  normalized_if_positive (normalized_if_positive v) = normalized_if_positive v.
Proof.
  unfold normalized_if_positive at 2 3.
  destruct (Rlt_dec 0 (v3_norm v)) as [Hpos | Hnpos].
  - unfold normalized_if_positive.
    pose proof (v3_norm_normalize v Hpos) as Hunit.
    destruct (Rlt_dec 0 (v3_norm (v3_normalize v))) as [_ | Hn]; [|lra].
    now apply v3_normalize_unit.
  - unfold normalized_if_positive.
    destruct (Rlt_dec 0 (v3_norm v)); [contradiction | reflexivity].
Qed.

Lemma normalized_if_positive_norm v :
  (0 < v3_norm v /\ v3_norm (normalized_if_positive v) = 1)
  \/ (v = mkV3 0 0 0 /\ normalized_if_positive v = mkV3 0 0 0).
Proof.
  unfold normalized_if_positive.
  destruct (Rlt_dec 0 (v3_norm v)) as [Hpos | Hnpos].
  - left. split; [assumption|]. now apply v3_norm_normalize.
  - right. assert (v3_norm v = 0) as Hz.
    { pose proof (v3_norm_nonneg v). lra. }
    apply v3_norm_zero_inv in Hz. now subst.
Qed.

Lemma normalized_if_positive_z v :
  0 < v3z v ->
  v3_norm (normalized_if_positive v) = 1
  /\ 0 < v3z (normalized_if_positive v).
Proof.
  intros Hz. pose proof (v3_norm_pos_of_z v Hz) as Hpos.
  unfold normalized_if_positive.
  destruct (Rlt_dec 0 (v3_norm v)) as [_ | Hn]; [|contradiction].
  split; [now apply v3_norm_normalize | now apply v3_normalize_z_pos].
Qed.

Section RotationUpdate.
Context {M : Type} `{ViewOps M}.
Implicit Type s : Trackball M.

(** [computeRotationAngle] in closed form. *)
Lemma computeRotationAngle_eq s :
  computeRotationAngle s =
    let a := normalized_if_positive (initialPosition s) in
    let b := normalized_if_positive (finalPosition s) in
    set_quaternion
      (q_normalize (q_mul (rotation_increment a b) (quaternion s)))
      (set_finalPosition b (set_initialPosition a s)).
Proof.
  destruct s as [cam zm rot tr dr tpm ip fp itp ftp q dq tv dt rad uds].
  unfold computeRotationAngle, normalized_if_positive, rotation_increment.
  cbv zeta. cbn [initialPosition finalPosition].
  destruct (Rlt_dec 0 (v3_norm ip));
    cbn [initialPosition finalPosition set_initialPosition];
    destruct (Rlt_dec 0 (v3_norm fp)); reflexivity.
Qed.

(** [rotateCamera] during a gesture, in closed form. *)
Lemma rotateCamera_active s p :
  rotating s = true ->
  rotateCamera p s =
    if v2_neqb p (head2 (initialPosition s)) then
      let a := normalized_if_positive (initialPosition s) in
      let b := normalized_if_positive
                 (computeSpherePosition s (normalizePosition s p)) in
      set_initialPosition b
        (updateViewMatrix
           (set_quaternion
              (q_normalize (q_mul (rotation_increment a b) (quaternion s)))
              (set_finalPosition b (set_initialPosition a s))))
    else s.
Proof.
  intros Hrot. unfold rotateCamera. rewrite Hrot. cbn [negb].
  destruct (v2_neqb p (head2 (initialPosition s))); [|reflexivity].
  cbv zeta. rewrite computeRotationAngle_eq. destruct s; reflexivity.
Qed.
End RotationUpdate.

(** The increment between a sample and itself is a positive real
    quaternion, i.e. no rotation. *)
Lemma rotation_increment_same v :
  let u := normalized_if_positive v in
  exists c, 0 < c /\ rotation_increment u u = mkQ c 0 0 0.
Proof.
  cbv zeta. generalize (normalized_if_positive_norm v).
  generalize (normalized_if_positive v). intros u Hu.
  exists (cos (acos (v3_dot u u) / 2)).
  assert (v3_dot u u = 1 \/ v3_dot u u = 0) as Hdot.
  { destruct Hu as [[_ Hn] | [_ Hz]].
    - left. change (v3_dot u u) with (v3_squaredNorm u).
      rewrite <- v3_norm_sqr, Hn. ring.
    - right. rewrite Hz. unfold v3_dot; cbn. ring. }
  split.
  - apply cos_half_acos_pos. destruct Hdot as [-> | ->]; lra.
  - unfold rotation_increment. rewrite v3_cross_self, v3_norm_zero.
    destruct (Req_dec_T 0 0) as [_ | Hne]; [|contradiction].
    destruct (Rle_dec (v3_dot u u) 1) as [_ | Hgt].
    + apply q_angle_zero_axis.
    + destruct Hdot as [Hd | Hd]; rewrite Hd in Hgt; lra.
Qed.

(** Two unit samples above the plane [z = 0] are never opposite, so the
    increment between them is not the zero quaternion. *)
Lemma rotation_increment_norm_pos a b :
  v3_norm a = 1 -> v3_norm b = 1 -> 0 < v3z a -> 0 < v3z b ->
  0 < q_norm (rotation_increment a b).
Proof.
  intros Ha Hb Hza Hzb. unfold rotation_increment.
  destruct (Req_dec_T (v3_norm (v3_cross a b)) 0) as [Hzero | Hnz].
  - apply v3_norm_zero_inv in Hzero. rewrite Hzero, q_angle_zero_axis.
    assert (-1 < v3_dot a b) as Hdot.
    { pose proof (v3_norm_sqr a) as Sa. pose proof (v3_norm_sqr b) as Sb.
      rewrite Ha in Sa. rewrite Hb in Sb.
      unfold v3_squaredNorm, v3_dot in *.
      pose proof (Rle_0_sqr (v3x a + v3x b)) as Hx.
      pose proof (Rle_0_sqr (v3y a + v3y b)) as Hy.
      assert (0 < (v3z a + v3z b) * (v3z a + v3z b)) as Hz
        by (apply Rmult_lt_0_compat; lra).
      unfold Rsqr in *. lra. }
    assert (0 < cos ((if Rle_dec (v3_dot a b) 1
                      then acos (v3_dot a b) else 0) / 2)) as Hc.
    { destruct (Rle_dec (v3_dot a b) 1).
      - now apply cos_half_acos_pos.
      - replace (0 / 2) with 0 by field. rewrite cos_0. lra. }
    rewrite q_norm_real; lra.
  - assert (0 < v3_norm (v3_cross a b)) as Hpos
      by (pose proof (v3_norm_nonneg (v3_cross a b)); lra).
    rewrite q_norm_angle_unit_axis; [lra|].
    now apply v3_norm_normalize.
Qed.

Section NoOpGuard.
Context {M : Type} `{ViewOps M}.
Implicit Type s : Trackball M.

(** In exact arithmetic a second [rotateCamera] with the same position
    during a gesture leaves the whole object as the first call made it:
    when the guard lets the call through, the increment that
    [computeRotationAngle] recomputes is a positive real quaternion and
    the renormalization gives back the orientation. *)
Lemma rotateCamera_repeated_exact s (p : Vector2f) :
  rotating s = true ->
  quaternion (rotateCamera p (rotateCamera p s))
  = quaternion (rotateCamera p s)
  /\ rotateCamera p (rotateCamera p s) = rotateCamera p s.
Proof.
  intros Hrot.
  enough (rotateCamera p (rotateCamera p s) = rotateCamera p s) as Heq
    by (split; [now rewrite Heq | exact Heq]).
  rewrite (rotateCamera_active s p Hrot).
  destruct (v2_neqb p (head2 (initialPosition s))) eqn:Hguard.
  - cbv zeta.
    set (a := normalized_if_positive (initialPosition s)).
    set (f := computeSpherePosition s (normalizePosition s p)).
    set (b := normalized_if_positive f).
    set (Q := q_mul (rotation_increment a b) (quaternion s)).
    set (s1 := set_initialPosition b _).
    assert (rotating s1 = true) as Hrot1 by exact Hrot.
    rewrite (rotateCamera_active s1 p Hrot1).
    destruct (v2_neqb p (head2 (initialPosition s1))); [|reflexivity].
    cbv zeta.
    change (computeSpherePosition s1 (normalizePosition s1 p)) with f.
    fold b.
    change (initialPosition s1) with b.
    change (quaternion s1) with (q_normalize Q).
    assert (normalized_if_positive b = b) as Hidem
      by (unfold b; apply normalized_if_positive_idem).
    rewrite Hidem.
    destruct (rotation_increment_same f) as (c & Hc & Hinc).
    cbv zeta in Hinc. fold b in Hinc. rewrite Hinc.
    rewrite (q_normalize_real_factor c Q Hc).
    subst s1. rewrite !updateViewMatrix_eq.
    destruct s as [cam zm rot tr dr tpm ip fp itp ftp q dq tv dt rad uds].
    unfold composedView. simpl_fields. reflexivity.
  - rewrite (rotateCamera_active s p Hrot), Hguard. reflexivity.
Qed.
End NoOpGuard.

(* ================================================================= *)
(** ** The unit-norm invariant of the orientation *)

Section UnitNorm.
Context {M : Type} `{ViewOps M}.
Implicit Type s : Trackball M.

Lemma unitOrientation_frame s s' :
  quaternion s' = quaternion s ->
  radius s' = radius s ->
  (rotating s' = true ->
     rotating s = true /\ initialPosition s' = initialPosition s) ->
  unitOrientation s -> unitOrientation s'.
Proof.
  intros Hq Hr Hi (Hn & Hrad & Href).
  unfold unitOrientation. rewrite Hq, Hr.
  split; [assumption|]. split; [assumption|].
  intros Hrot. destruct (Hi Hrot) as [Hrot0 ->]. now apply Href.
Qed.

Lemma unitOrientation_ctor (raw : Trackball M) :
  unitOrientation (Trackball_ctor raw).
Proof.
  unfold unitOrientation. cbn.
  split; [apply q_norm_identity|]. split; [lra | discriminate].
Qed.

Lemma unitOrientation_reset s :
  unitOrientation s -> unitOrientation (reset s).
Proof.
  intros (_ & Hrad & _). unfold unitOrientation. cbn.
  split; [apply q_norm_identity|]. split; [assumption | discriminate].
Qed.

Lemma unitOrientation_rotateViewMatrix s q :
  q_norm q = 1 -> unitOrientation s -> unitOrientation (rotateViewMatrix q s).
Proof.
  intros Hq (Hn & Hrad & Href).
  unfold unitOrientation, rotateViewMatrix. simpl_fields.
  split; [|split; assumption].
  apply q_norm_normalize. rewrite q_norm_mul, Hn, Hq. lra.
Qed.

Lemma unitOrientation_rotateCamera s p :
  unitOrientation s -> unitOrientation (rotateCamera p s).
Proof.
  intros (Hn & Hrad & Href).
  destruct (rotating s) eqn:Hrot.
  - rewrite (rotateCamera_active s p Hrot).
    destruct (v2_neqb p (head2 (initialPosition s)));
      [|unfold unitOrientation; rewrite Hrot; auto].
    cbv zeta.
    pose proof (computeSpherePosition_z_pos s (normalizePosition s p) Hrad)
      as Hzf.
    destruct (normalized_if_positive_z _ (Href eq_refl)) as [Hna Hza].
    destruct (normalized_if_positive_z _ Hzf) as [Hnb Hzb].
    unfold unitOrientation. rewrite updateViewMatrix_eq. simpl_fields.
    split; [|split; [assumption | intros _; exact Hzb]].
    apply q_norm_normalize. rewrite q_norm_mul, Hn, Rmult_1_r.
    now apply rotation_increment_norm_pos.
  - unfold rotateCamera. rewrite Hrot. cbn [negb].
    unfold unitOrientation. simpl_fields.
    split; [assumption|]. split; [assumption|]. intros _.
    now apply computeSpherePosition_z_pos.
Qed.

Lemma unitOrientation_translateCamera s p :
  unitOrientation s -> unitOrientation (translateCamera p s).
Proof.
  apply unitOrientation_frame; unfold translateCamera;
    destruct (negb (translating s));
    try destruct (v2_neqb p (head2 (initialPosition s)));
    try reflexivity; intros Hrot; split; (exact Hrot || reflexivity).
Qed.

Lemma unitOrientation_computeRotationAngle s :
  0 < v3z (initialPosition s) -> 0 < v3z (finalPosition s) ->
  unitOrientation s -> unitOrientation (computeRotationAngle s).
Proof.
  intros Hza Hzb (Hn & Hrad & Href).
  destruct (normalized_if_positive_z _ Hza) as [Hna Hza'].
  destruct (normalized_if_positive_z _ Hzb) as [Hnb Hzb'].
  rewrite computeRotationAngle_eq. cbv zeta.
  unfold unitOrientation. simpl_fields.
  split; [|split; [assumption | intros _; exact Hza']].
  apply q_norm_normalize. rewrite q_norm_mul, Hn, Rmult_1_r.
  now apply rotation_increment_norm_pos.
Qed.

Lemma unitOrientation_run_op o s :
  op_admissible o s -> unitOrientation s -> unitOrientation (run_op o s).
Proof.
  intros Hadm Hinv. destruct o; cbn [run_op].
  - now apply unitOrientation_reset.
  - revert Hinv. apply unitOrientation_frame; try reflexivity.
    intros Hrot; split; [exact Hrot | reflexivity].
  - revert Hinv. apply unitOrientation_frame; try reflexivity.
    intros Hrot; split; [exact Hrot | reflexivity].
  - revert Hinv. apply unitOrientation_frame; try reflexivity.
    intros Hrot; split; [exact Hrot | reflexivity].
  - revert Hinv. apply unitOrientation_frame; try reflexivity.
    cbn. discriminate.
  - revert Hinv. apply unitOrientation_frame; try reflexivity.
    intros Hrot; split; [exact Hrot | reflexivity].
  - revert Hinv. apply unitOrientation_frame; try reflexivity.
    intros Hrot; split; [exact Hrot | reflexivity].
  - destruct Hinv as (_ & Hrad & _). unfold unitOrientation. cbn.
    split; [apply q_norm_identity|]. split; [assumption | discriminate].
  - now apply unitOrientation_rotateCamera.
  - now apply unitOrientation_translateCamera.
  - revert Hinv. apply unitOrientation_frame; try reflexivity.
    intros Hrot; split; [exact Hrot | reflexivity].
  - revert Hinv. apply unitOrientation_frame; try reflexivity.
    intros Hrot; split; [exact Hrot | reflexivity].
  - revert Hinv. apply unitOrientation_frame; try reflexivity.
    intros Hrot; split; [exact Hrot | reflexivity].
  - revert Hinv. apply unitOrientation_frame; try reflexivity.
    intros Hrot; split; [exact Hrot | reflexivity].
  - now apply unitOrientation_rotateViewMatrix.
  - revert Hinv. apply unitOrientation_frame; try reflexivity.
    intros Hrot; split; [exact Hrot | reflexivity].
  - destruct Hadm as [Hza Hzb].
    now apply unitOrientation_computeRotationAngle.
  - revert Hinv. apply unitOrientation_frame; try reflexivity.
    intros Hrot; split; [exact Hrot | reflexivity].
  - revert Hinv. apply unitOrientation_frame; try reflexivity.
    intros Hrot; split; [exact Hrot | reflexivity].
Qed.

Lemma reachable_unitOrientation s : reachable s -> unitOrientation s.
Proof.
  induction 1 as [raw | o s Hreach IH Hadm].
  - apply unitOrientation_ctor.
  - now apply unitOrientation_run_op.
Qed.

Lemma reachable_orientation_unit s :
  reachable s -> q_norm (quaternion s) = 1.
Proof.
  intros Hreach. exact (proj1 (reachable_unitOrientation s Hreach)).
Qed.



End UnitNorm.

(* ================================================================= *)
(** ** The scenarios *)

Lemma q_mul_identity_r q : q_mul q q_identity = q.
Proof. destruct q. unfold q_mul, q_identity; cbn. f_equal; ring. Qed.

Lemma v2_neqb_true a b : a <> b -> v2_neqb a b = true.
Proof.
  intros Hne. unfold v2_neqb. destruct (v2_eq_dec a b); [contradiction|].
  reflexivity.
Qed.

Lemma v2_neqb_false a : v2_neqb a a = false.
Proof.
  unfold v2_neqb. destruct (v2_eq_dec a a) as [_ | Hne]; [reflexivity|].
  now contradiction Hne.
Qed.

Section SurfacePoints.
Context {M : Type}.
Implicit Type s : Trackball M.

(** The surface point over the centre, radius [0.8]. *)
Lemma surface_point_centre s :
  radius s = 8 / 10 ->
  computeSpherePosition s (mkV2 0 0) = mkV3 0 0 (8 / 10).
Proof.
  intros Hr. unfold computeSpherePosition. rewrite Hr.
  cbn [v2x v2y].
  destruct (Rle_dec (0 * 0 + 0 * 0) (8 / 10 * (8 / 10) / 2)) as [_ | Hn];
    [|lra].
  f_equal.
  replace (8 / 10 * (8 / 10) - 0 * 0 - 0 * 0) with (8 / 10 * (8 / 10)) by ring.
  apply sqrt_square. lra.
Qed.

(** The surface point over [(0.5, 0)], radius [0.8]: still on the
    sphere. *)
Lemma surface_point_right s :
  radius s = 8 / 10 ->
  computeSpherePosition s (mkV2 (1 / 2) 0)
  = mkV3 (1 / 2) 0 (sqrt (39 / 100)).
Proof.
  intros Hr. unfold computeSpherePosition. rewrite Hr.
  cbn [v2x v2y].
  destruct (Rle_dec (1 / 2 * (1 / 2) + 0 * 0) (8 / 10 * (8 / 10) / 2))
    as [_ | Hn]; [|lra].
  f_equal. f_equal. field.
Qed.
End SurfacePoints.

Lemma sqrt_39_bounds : 0 < sqrt (39 / 100) < 8 / 10.
Proof.
  split.
  - apply sqrt_lt_R0. lra.
  - replace (8 / 10) with (sqrt (8 / 10 * (8 / 10)))
      by (apply sqrt_square; lra).
    apply sqrt_lt_1_alt. lra.
Qed.

Lemma unit_centre : normalized_if_positive (mkV3 0 0 (8 / 10)) = mkV3 0 0 1.
Proof.
  assert (v3_norm (mkV3 0 0 (8 / 10)) = 8 / 10) as Hn.
  { unfold v3_norm, v3_squaredNorm, v3_dot. cbn [v3x v3y v3z].
    replace (0 * 0 + 0 * 0 + 8 / 10 * (8 / 10)) with (8 / 10 * (8 / 10))
      by ring.
    apply sqrt_square. lra. }
  unfold normalized_if_positive, v3_normalize. rewrite Hn.
  destruct (Rlt_dec 0 (8 / 10)) as [_ | Hneg]; [|lra].
  cbn [v3x v3y v3z]. f_equal; field.
Qed.

Lemma unit_right :
  normalized_if_positive (mkV3 (1 / 2) 0 (sqrt (39 / 100)))
  = mkV3 (5 / 8) 0 (sqrt (39 / 100) / (8 / 10)).
Proof.
  assert (v3_norm (mkV3 (1 / 2) 0 (sqrt (39 / 100))) = 8 / 10) as Hn.
  { unfold v3_norm, v3_squaredNorm, v3_dot. cbn [v3x v3y v3z].
    rewrite sqrt_sqrt by lra.
    replace (1 / 2 * (1 / 2) + 0 * 0 + 39 / 100) with (8 / 10 * (8 / 10))
      by field.
    apply sqrt_square. lra. }
  unfold normalized_if_positive, v3_normalize. rewrite Hn.
  destruct (Rlt_dec 0 (8 / 10)) as [_ | Hneg]; [|lra].
  cbn [v3x v3y v3z]. f_equal; field.
Qed.

(** The increment from the centre sample to the sample over [(0.5, 0)]:
    a rotation about the y axis by an angle strictly between zero and a
    straight angle. *)
Lemma increment_centre_right :
  let d := sqrt (39 / 100) / (8 / 10) in
  rotation_increment (mkV3 0 0 1) (mkV3 (5 / 8) 0 d)
  = q_of_angle_axis (acos d) (mkV3 0 1 0)
  /\ 0 < acos d < PI.
Proof.
  cbv zeta. set (d := sqrt (39 / 100) / (8 / 10)).
  assert (0 < d < 1) as Hd.
  { pose proof sqrt_39_bounds as [Hlo Hhi]. unfold d. split.
    - apply Rdiv_lt_0_compat; lra.
    - apply (Rmult_lt_reg_r (8 / 10)); [lra|].
      replace (sqrt (39 / 100) / (8 / 10) * (8 / 10)) with (sqrt (39 / 100))
        by (field; lra).
      lra. }
  split; [|apply acos_bound_lt; lra].
  assert (v3_cross (mkV3 0 0 1) (mkV3 (5 / 8) 0 d) = mkV3 0 (5 / 8) 0) as Hc.
  { unfold v3_cross. cbn [v3x v3y v3z]. f_equal; ring. }
  assert (v3_norm (mkV3 0 (5 / 8) 0) = 5 / 8) as Hn.
  { unfold v3_norm, v3_squaredNorm, v3_dot. cbn [v3x v3y v3z].
    replace (0 * 0 + 5 / 8 * (5 / 8) + 0 * 0) with (5 / 8 * (5 / 8)) by ring.
    apply sqrt_square. lra. }
  assert (v3_dot (mkV3 0 0 1) (mkV3 (5 / 8) 0 d) = d) as Hdot.
  { unfold v3_dot. cbn [v3x v3y v3z]. ring. }
  unfold rotation_increment. rewrite Hc, Hn, Hdot.
  destruct (Req_dec_T (5 / 8) 0) as [Habs | _]; [lra|].
  destruct (Rle_dec d 1) as [_ | Habs]; [|lra].
  f_equal. unfold v3_normalize. rewrite Hn. cbn [v3x v3y v3z].
  f_equal; field.
Qed.

(** Identities of the matrix product. *)
Lemma m4_mul_identity_r m : Affine.m4_mul m Affine.m4_identity = m.
Proof.
  destruct m as [[a0 b0 c0 d0] [a1 b1 c1 d1] [a2 b2 c2 d2] [a3 b3 c3 d3]].
  matrix_entries. repeat f_equal; ring.
Qed.

Lemma m4_mul_identity_l m : Affine.m4_mul Affine.m4_identity m = m.
Proof.
  destruct m as [[a0 b0 c0 d0] [a1 b1 c1 d1] [a2 b2 c2 d2] [a3 b3 c3 d3]].
  matrix_entries. repeat f_equal; ring.
Qed.

Lemma rotation_matrix_identity :
  Affine.rotation_matrix q_identity = Affine.m4_identity.
Proof. matrix_entries. repeat f_equal; ring. Qed.

Lemma translation_matrix_zero :
  Affine.translation_matrix (mkV3 0 0 0) = Affine.m4_identity.
Proof. reflexivity. Qed.

Lemma scaling_matrix_one : Affine.scaling_matrix 1 = Affine.m4_identity.
Proof. reflexivity. Qed.

(** The rotation scenario, for any controller that has the configuration
    of the scenario: idle, defaults, radius [0.8], viewport
    [(0, 0, 800, 600)]. *)
Section RotationScenario.
Import Affine.
Variable s0 : Trackball Matrix4f.
Hypothesis s0_idle : rotating s0 = false.
Hypothesis s0_quaternion : quaternion s0 = q_identity.
Hypothesis s0_default_quaternion : default_quaternion s0 = q_identity.
Hypothesis s0_translation : translationVector s0 = mkV3 0 0 0.
Hypothesis s0_default_translation : defaultTranslation s0 = mkV3 0 0 (-4).
Hypothesis s0_zoom : zoom s0 = 1.
Hypothesis s0_radius : radius s0 = 8 / 10.
Hypothesis s0_viewport : viewport (camera s0) = mkV4 0 0 800 600.
Hypothesis s0_fresh : viewFresh s0.

(** Normalized coordinates in the viewport [(0, 0, 800, 600)]. *)
Lemma normalizePosition_800_600 (s : Trackball Matrix4f) (p : Vector2f) :
  viewport (camera s) = mkV4 0 0 800 600 ->
  normalizePosition s p = mkV2 (v2x p / 400 - 1) (1 - v2y p / 300).
Proof.
  intros Hvp. unfold normalizePosition. rewrite Hvp.
  cbn [v4a v4b v4c v4d]. f_equal; field.
Qed.

Lemma normalizePosition_centre :
  normalizePosition s0 (mkV2 400 300) = mkV2 0 0.
Proof.
  rewrite (normalizePosition_800_600 s0 _ s0_viewport). cbn [v2x v2y].
  f_equal; field.
Qed.

Lemma normalizePosition_right (s : Trackball Matrix4f) :
  viewport (camera s) = mkV4 0 0 800 600 ->
  normalizePosition s (mkV2 600 300) = mkV2 (1 / 2) 0.
Proof.
  intros Hvp. rewrite (normalizePosition_800_600 s _ Hvp). cbn [v2x v2y].
  f_equal; field.
Qed.

Lemma scenario_begun :
  rotateCamera (mkV2 400 300) s0
  = set_initialPosition (mkV3 0 0 (8 / 10)) (set_rotating true s0).
Proof.
  rewrite (rotateCamera_idle s0 (mkV2 400 300) s0_idle).
  rewrite normalizePosition_centre, (surface_point_centre s0 s0_radius).
  reflexivity.
Qed.

Lemma scenario_dragged :
  rotateCamera (mkV2 600 300) (rotateCamera (mkV2 400 300) s0)
  = set_initialPosition (mkV3 (5 / 8) 0 (sqrt (39 / 100) / (8 / 10)))
      (updateViewMatrix
         (set_quaternion
            (q_of_angle_axis Scenario.drag_angle (mkV3 0 1 0))
            (set_finalPosition
               (mkV3 (5 / 8) 0 (sqrt (39 / 100) / (8 / 10)))
               (set_initialPosition (mkV3 0 0 1)
                  (set_initialPosition (mkV3 0 0 (8 / 10))
                     (set_rotating true s0)))))).
Proof.
  rewrite scenario_begun.
  set (s1 := set_initialPosition (mkV3 0 0 (8 / 10)) (set_rotating true s0)).
  assert (rotating s1 = true) as Hrot by reflexivity.
  assert (viewport (camera s1) = mkV4 0 0 800 600) as Hvp
    by exact s0_viewport.
  assert (radius s1 = 8 / 10) as Hr by exact s0_radius.
  assert (quaternion s1 = q_identity) as Hq by exact s0_quaternion.
  rewrite (rotateCamera_active s1 (mkV2 600 300) Hrot).
  change (initialPosition s1) with (mkV3 0 0 (8 / 10)).
  rewrite v2_neqb_true
    by (unfold head2; cbn [v3x v3y]; intros Heq; injection Heq; lra).
  cbv zeta.
  rewrite (normalizePosition_right s1 Hvp), (surface_point_right s1 Hr).
  rewrite unit_centre, unit_right, Hq.
  rewrite (proj1 increment_centre_right), q_mul_identity_r.
  rewrite q_normalize_unit; [reflexivity|].
  apply q_norm_angle_unit_axis.
  unfold v3_norm, v3_squaredNorm, v3_dot. cbn [v3x v3y v3z].
  replace (0 * 0 + 1 * 1 + 0 * 0) with 1 by ring. apply sqrt_1.
Qed.

(** The top-left entry of the composed matrix when the default
    orientation is the identity, nothing is panned and the zoom is
    one. *)
Lemma composedView_entry00 (s : Trackball Matrix4f) :
  default_quaternion s = q_identity ->
  translationVector s = mkV3 0 0 0 ->
  zoom s = 1 ->
  v4a (row0 (composedView s))
  = 1 - 2 * (qy (quaternion s) * qy (quaternion s)
             + qz (quaternion s) * qz (quaternion s)).
Proof.
  intros Hdq Ht Hz. unfold composedView. rewrite Hdq, Ht, Hz.
  destruct (quaternion s) as [w x y z].
  destruct (defaultTranslation s) as [tx ty tz].
  matrix_entries. ring.
Qed.

Lemma composedView_defaults : composedView s0 = translation_matrix (mkV3 0 0 (-4)).
Proof.
  unfold composedView.
  rewrite s0_default_quaternion, s0_translation, s0_zoom, s0_quaternion,
    s0_default_translation.
  cbn [mat_scale mat_translate mat_rotate mat_identity affine_ops].
  rewrite rotation_matrix_identity, translation_matrix_zero,
    scaling_matrix_one.
  now rewrite !m4_mul_identity_r, m4_mul_identity_l.
Qed.

(** The whole scenario. *)
Lemma rotation_scenario :
  let begun := rotateCamera (mkV2 400 300) s0 in
  let dragged := rotateCamera (mkV2 600 300) begun in
  normalizePosition s0 (mkV2 400 300) = mkV2 0 0
  /\ computeSpherePosition s0 (mkV2 0 0) = mkV3 0 0 (8 / 10)
  /\ rotating begun = true
  /\ initialPosition begun = mkV3 0 0 (8 / 10)
  /\ quaternion begun = q_identity
  /\ normalizePosition begun (mkV2 600 300) = mkV2 (1 / 2) 0
  /\ (exists theta, 0 < theta < PI
       /\ quaternion dragged = q_of_angle_axis theta (mkV3 0 1 0))
  /\ getViewMatrix begun = translation_matrix (mkV3 0 0 (-4))
  /\ viewFresh dragged
  /\ getViewMatrix dragged <> getViewMatrix begun.
Proof.
  cbv zeta. rewrite scenario_dragged, scenario_begun.
  split; [exact normalizePosition_centre|].
  split; [exact (surface_point_centre s0 s0_radius)|].
  split; [reflexivity|]. split; [reflexivity|].
  split; [exact s0_quaternion|].
  split; [apply normalizePosition_right; exact s0_viewport|].
  split.
  { exists Scenario.drag_angle. split; [|reflexivity].
    exact (proj2 increment_centre_right). }
  split.
  { transitivity (composedView s0); [exact s0_fresh|].
    exact composedView_defaults. }
  split; [reflexivity|].
  intros Heq. apply (f_equal (fun m => v4a (row0 m))) in Heq.
  rewrite updateViewMatrix_eq in Heq. unfold getViewMatrix in Heq.
  simpl_fields in Heq.
  change (viewMatrix (camera s0)) with (getViewMatrix s0) in Heq.
  rewrite s0_fresh in Heq.
  rewrite (composedView_entry00 s0 s0_default_quaternion s0_translation
             s0_zoom) in Heq.
  rewrite composedView_entry00 in Heq;
    [|exact s0_default_quaternion | exact s0_translation | exact s0_zoom].
  rewrite s0_quaternion in Heq. simpl_fields in Heq.
  unfold q_of_angle_axis, q_identity in Heq. cbn [qy qz v3x v3y v3z] in Heq.
  pose proof (proj2 increment_centre_right) as Hb. cbv zeta in Hb.
  fold Scenario.drag_angle in Hb.
  assert (0 < sin (Scenario.drag_angle / 2)) as Hsin
    by (apply sin_gt_0; lra).
  set (sn := sin (Scenario.drag_angle / 2)) in *.
  assert (0 < sn * sn) by (apply Rmult_lt_0_compat; assumption).
  lra.
Qed.
End RotationScenario.

(** C9.  From the defaults with viewport [(0, 0, 800, 600)] and radius
    [0.8]: the screen point [(400, 300)] normalizes to [(0, 0)], whose
    surface point is [(0, 0, 0.8)]; it becomes the reference sample of the
    rotation gesture.  The update at [(600, 300)], normalized [(0.5, 0)],
    leaves the orientation equal to the rotation about the y axis by an
    angle strictly between zero and a straight angle, and the recomputed
    view matrix differs from the one before, which was the translation by
    the default [(0, 0, -4)]. *)
Theorem C9_rotation_scenario :
  normalizePosition Scenario.start (mkV2 400 300) = mkV2 0 0
  /\ computeSpherePosition Scenario.start (mkV2 0 0) = mkV3 0 0 (8 / 10)
  /\ rotating Scenario.begun = true
  /\ initialPosition Scenario.begun = mkV3 0 0 (8 / 10)
  /\ quaternion Scenario.begun = q_identity
  /\ normalizePosition Scenario.begun (mkV2 600 300) = mkV2 (1 / 2) 0
  /\ (exists theta, 0 < theta < PI
       /\ quaternion Scenario.dragged = q_of_angle_axis theta (mkV3 0 1 0))
  /\ getViewMatrix Scenario.begun
     = Affine.translation_matrix (mkV3 0 0 (-4))
  /\ viewFresh Scenario.dragged
  /\ getViewMatrix Scenario.dragged <> getViewMatrix Scenario.begun.
Proof.
  assert (viewFresh Scenario.start) as Hfresh.
  { unfold Scenario.start. apply viewFresh_setViewport.
    unfold Scenario.fresh0, Trackball_ctor. cbv zeta. apply viewFresh_reset. }
  exact (rotation_scenario Scenario.start eq_refl eq_refl eq_refl eq_refl
           eq_refl eq_refl eq_refl eq_refl Hfresh).
Qed.

(* ================================================================= *)
(** ** The translation guard *)

Lemma q_mul_identity_l q : q_mul q_identity q = q.
Proof. destruct q. unfold q_mul, q_identity; cbn. f_equal; ring. Qed.

Section TranslationUpdate.
Context {M : Type} `{ViewOps M}.
Implicit Type s : Trackball M.

(** [translateCamera] during a gesture, in closed form: the guard reads
    the sample of the rotation gesture. *)
Lemma translateCamera_active s p :
  translating s = true ->
  translateCamera p s =
    if v2_neqb p (head2 (initialPosition s)) then
      set_initialTranslationPosition (normalizePosition s p)
        (updateViewMatrix
           (computeTranslationVector
              (set_finalTranslationPosition (normalizePosition s p) s)))
    else s.
Proof.
  intros Htr. unfold translateCamera. rewrite Htr. cbn [negb].
  destruct (v2_neqb p (head2 (initialPosition s))); reflexivity.
Qed.

(** Whenever the raw position equals the first two coordinates of the
    rotation sample, the translation update is skipped. *)
Lemma translateCamera_skipped s p :
  translating s = true ->
  p = head2 (initialPosition s) ->
  translateCamera p s = s.
Proof.
  intros Htr ->. rewrite (translateCamera_active s _ Htr).
  now rewrite v2_neqb_false.
Qed.
End TranslationUpdate.

Section TranslationScenario.
Import Affine.
Variable s0 : Trackball Matrix4f.
Hypothesis s0_idle : rotating s0 = false.
Hypothesis s0_not_panning : translating s0 = false.
Hypothesis s0_radius : radius s0 = 8 / 10.
Hypothesis s0_viewport : viewport (camera s0) = mkV4 0 0 800 600.

(** A click at the centre, then the start of a pan at the centre. *)
Lemma scenario_panning :
  translateCamera (mkV2 400 300)
    (endRotation (rotateCamera (mkV2 400 300) s0))
  = set_initialTranslationPosition (mkV2 0 0)
      (set_translating true
         (set_rotating false
            (set_initialPosition (mkV3 0 0 (8 / 10))
               (set_rotating true s0)))).
Proof.
  rewrite (rotateCamera_idle s0 (mkV2 400 300) s0_idle).
  rewrite (normalizePosition_centre s0 s0_viewport).
  rewrite (surface_point_centre s0 s0_radius).
  unfold endRotation.
  set (s1 := set_rotating false _).
  assert (translating s1 = false) as Htr by exact s0_not_panning.
  rewrite (translateCamera_idle s1 (mkV2 400 300) Htr).
  rewrite (normalizePosition_centre s1 s0_viewport).
  reflexivity.
Qed.

(** The pan continued to the screen origin: the normalized position
    [(-1, 1)] differs from the reference sample [(0, 0)] of the
    translation gesture, yet the update is skipped, because the raw
    position [(0, 0)] equals the first two coordinates of the rotation
    sample. *)
Lemma translation_guard_scenario :
  let panning :=
    translateCamera (mkV2 400 300)
      (endRotation (rotateCamera (mkV2 400 300) s0)) in
  translating panning = true
  /\ initialTranslationPosition panning = mkV2 0 0
  /\ normalizePosition panning (mkV2 0 0) = mkV2 (-1) 1
  /\ normalizePosition panning (mkV2 0 0)
     <> initialTranslationPosition panning
  /\ translateCamera (mkV2 0 0) panning = panning.
Proof.
  cbv zeta. rewrite scenario_panning.
  set (s2 := set_initialTranslationPosition _ _).
  assert (normalizePosition s2 (mkV2 0 0) = mkV2 (-1) 1) as Hndc.
  { rewrite (normalizePosition_800_600 s2 _ s0_viewport). cbn [v2x v2y].
    f_equal; field. }
  split; [reflexivity|]. split; [reflexivity|]. split; [exact Hndc|].
  split.
  { rewrite Hndc. change (initialTranslationPosition s2) with (mkV2 0 0).
    intros Heq. injection Heq as Hx _. lra. }
  unfold translateCamera.
  change (translating s2) with true.
  change (initialPosition s2) with (mkV3 0 0 (8 / 10)).
  cbn [negb]. change (head2 (mkV3 0 0 (8 / 10))) with (mkV2 0 0).
  rewrite v2_neqb_false. reflexivity.
Qed.
End TranslationScenario.

(** C3, the code at a failing input.  After a click at the centre of the
    viewport [(0, 0, 800, 600)] and the start of a pan there, the update
    at the screen origin is skipped although its normalized position
    [(-1, 1)] is not the stored reference sample [(0, 0)] of the
    translation gesture: the guard of [translateCamera] compares the raw
    position with the sample of the rotation gesture. *)
Theorem C3_translation_guard_reads_rotation_sample :
  translating Scenario.panning = true
  /\ initialTranslationPosition Scenario.panning = mkV2 0 0
  /\ normalizePosition Scenario.panning (mkV2 0 0) = mkV2 (-1) 1
  /\ normalizePosition Scenario.panning (mkV2 0 0)
     <> initialTranslationPosition Scenario.panning
  /\ translateCamera (mkV2 0 0) Scenario.panning = Scenario.panning.
Proof.
  exact (translation_guard_scenario Scenario.start eq_refl eq_refl eq_refl
           eq_refl).
Qed.

(* ================================================================= *)
(** ** Recomputation of the view matrix *)

Section EagerRecompute.
Context {M : Type} `{ViewOps M}.
Implicit Type s : Trackball M.

Lemma viewFresh_zoom_operations s k :
  viewFresh (increaseZoom k s)
  /\ viewFresh (decreaseZoom k s)
  /\ viewFresh (applyScaleToViewMatrix k s).
Proof. repeat split. Qed.

Lemma viewFresh_rotateCamera s p :
  viewFresh s -> viewFresh (rotateCamera p s).
Proof.
  intros Hf. unfold rotateCamera.
  destruct (negb (rotating s)); [exact Hf|].
  destruct (v2_neqb p (head2 (initialPosition s))); [|exact Hf].
  cbv zeta. rewrite updateViewMatrix_eq. reflexivity.
Qed.

Lemma viewFresh_translateCamera s p :
  viewFresh s -> viewFresh (translateCamera p s).
Proof.
  intros Hf. unfold translateCamera.
  destruct (negb (translating s)); [exact Hf|].
  destruct (v2_neqb p (head2 (initialPosition s))); [|exact Hf].
  cbv zeta. rewrite updateViewMatrix_eq. reflexivity.
Qed.
End EagerRecompute.

Section StaleScenario.
Import Affine.
Variable s0 : Trackball Matrix4f.
Hypothesis s0_quaternion : quaternion s0 = q_identity.
Hypothesis s0_default_quaternion : default_quaternion s0 = q_identity.
Hypothesis s0_translation : translationVector s0 = mkV3 0 0 0.
Hypothesis s0_default_translation : defaultTranslation s0 = mkV3 0 0 (-4).
Hypothesis s0_zoom : zoom s0 = 1.
Hypothesis s0_fresh : viewFresh s0.

Lemma composedView_entry03 (s : Trackball Matrix4f) :
  default_quaternion s = q_identity ->
  quaternion s = q_identity ->
  zoom s = 1 ->
  v4d (row0 (composedView s))
  = v3x (defaultTranslation s) + v3x (translationVector s).
Proof.
  intros Hdq Hq Hz. unfold composedView. rewrite Hdq, Hq, Hz.
  cbn [mat_scale mat_translate mat_rotate mat_identity affine_ops].
  rewrite rotation_matrix_identity, scaling_matrix_one.
  rewrite !m4_mul_identity_r, m4_mul_identity_l.
  destruct (defaultTranslation s) as [dx dy dz].
  destruct (translationVector s) as [tx ty tz].
  matrix_entries. ring.
Qed.

Lemma stale_after_translateViewMatrix :
  getViewMatrix (translateViewMatrix (mkV3 1 0 0) s0) = getViewMatrix s0
  /\ ~ viewFresh (translateViewMatrix (mkV3 1 0 0) s0).
Proof.
  split; [reflexivity|]. unfold viewFresh.
  change (getViewMatrix (translateViewMatrix (mkV3 1 0 0) s0))
    with (getViewMatrix s0).
  rewrite s0_fresh. intros Heq.
  apply (f_equal (fun m => v4d (row0 m))) in Heq.
  rewrite !composedView_entry03 in Heq;
    try assumption; try reflexivity.
  unfold translateViewMatrix in Heq. simpl_fields in Heq.
  rewrite s0_default_translation, s0_translation in Heq.
  cbn [v3_add v3x v3y v3z] in Heq. lra.
Qed.

Lemma stale_after_rotateViewMatrix :
  q_norm (mkQ 0 0 1 0) = 1
  /\ getViewMatrix (rotateViewMatrix (mkQ 0 0 1 0) s0) = getViewMatrix s0
  /\ ~ viewFresh (rotateViewMatrix (mkQ 0 0 1 0) s0).
Proof.
  assert (q_norm (mkQ 0 0 1 0) = 1) as Hunit.
  { unfold q_norm, q_squaredNorm. cbn [qw qx qy qz].
    replace (0 * 0 + 0 * 0 + 1 * 1 + 0 * 0) with 1 by ring. apply sqrt_1. }
  split; [exact Hunit|]. split; [reflexivity|]. unfold viewFresh.
  change (getViewMatrix (rotateViewMatrix (mkQ 0 0 1 0) s0))
    with (getViewMatrix s0).
  rewrite s0_fresh. intros Heq.
  apply (f_equal (fun m => v4a (row0 m))) in Heq.
  rewrite !composedView_entry00 in Heq;
    try assumption; try reflexivity.
  unfold rotateViewMatrix in Heq. simpl_fields in Heq.
  rewrite s0_quaternion, q_mul_identity_l, (q_normalize_unit _ Hunit) in Heq.
  unfold q_identity in Heq. cbn [qw qx qy qz] in Heq. lra.
Qed.
End StaleScenario.

(** C7, the code at a failing input.  On the freshly constructed
    controller, whose view matrix is up to date, [translateViewMatrix]
    and [rotateViewMatrix] change an accumulator and return with the old
    view matrix still stored: it is no longer the composition of the
    current state. *)
Theorem C7_view_matrix_stale_after_direct_mutation :
  viewFresh Scenario.fresh0
  /\ (getViewMatrix (translateViewMatrix (mkV3 1 0 0) Scenario.fresh0)
      = getViewMatrix Scenario.fresh0
      /\ ~ viewFresh (translateViewMatrix (mkV3 1 0 0) Scenario.fresh0))
  /\ (q_norm (mkQ 0 0 1 0) = 1
      /\ getViewMatrix (rotateViewMatrix (mkQ 0 0 1 0) Scenario.fresh0)
         = getViewMatrix Scenario.fresh0
      /\ ~ viewFresh (rotateViewMatrix (mkQ 0 0 1 0) Scenario.fresh0)).
Proof.
  assert (viewFresh Scenario.fresh0) as Hfresh.
  { unfold Scenario.fresh0, Trackball_ctor. cbv zeta. apply viewFresh_reset. }
  split; [exact Hfresh|]. split.
  - exact (stale_after_translateViewMatrix Scenario.fresh0 eq_refl eq_refl
             eq_refl eq_refl eq_refl Hfresh).
  - exact (stale_after_rotateViewMatrix Scenario.fresh0 eq_refl eq_refl
             eq_refl eq_refl Hfresh).
Qed.

(* ================================================================= *)
(** ** The theorems at concrete inputs *)

(** C4 on the controller of the scenario: the centre lies in the sphere
    region, the normalized point [(2, 0)] in the region of the hyperbolic
    sheet. *)
Lemma C4_computeSpherePosition_cases_witness :
  (0 * 0 + 0 * 0 <= (8 / 10 * (8 / 10)) / 2
   /\ computeSpherePosition Scenario.start (mkV2 0 0)
      = mkV3 0 0 (sqrt (8 / 10 * (8 / 10) - 0 * 0 - 0 * 0)))
  /\ (~ 2 * 2 + 0 * 0 <= (8 / 10 * (8 / 10)) / 2
      /\ computeSpherePosition Scenario.start (mkV2 2 0)
         = mkV3 2 0 ((8 / 10 * (8 / 10)) / (2 * sqrt (2 * 2 + 0 * 0)))).
Proof.
  split.
  - assert (0 * 0 + 0 * 0 <= (8 / 10 * (8 / 10)) / 2) as Hin by lra.
    split; [exact Hin|].
    exact (proj1 (C4_computeSpherePosition_cases Scenario.start (mkV2 0 0))
             Hin).
  - assert (~ 2 * 2 + 0 * 0 <= (8 / 10 * (8 / 10)) / 2) as Hout by lra.
    split; [exact Hout|].
    exact (proj1 (proj2
             (C4_computeSpherePosition_cases Scenario.start (mkV2 2 0)))
             Hout).
Defined.

(* ================================================================= *)
(** ** Zoom *)

Section Zoom.
Context {M : Type} `{ViewOps M}.
Implicit Type s : Trackball M.

(** Recomputing an up-to-date view matrix changes nothing. *)
Lemma updateViewMatrix_fresh s : viewFresh s -> updateViewMatrix s = s.
Proof.
  intros Hf. rewrite updateViewMatrix_eq. rewrite <- Hf.
  destruct s as [[vm pm vp] zm rot tr dr tpm ip fp itp ftp q dq tv dt rad uds].
  reflexivity.
Qed.

(** Zoom round trip.  Dividing the zoom by the factor it was just
    multiplied by (and conversely) gives back the zoom and leaves the
    object as a recomputation of the view matrix leaves it; on an object
    whose view matrix was up to date nothing has changed at all. *)
Theorem zoom_round_trip s (k : R) :
  k <> 0 ->
  decreaseZoom k (increaseZoom k s) = updateViewMatrix s
  /\ increaseZoom k (decreaseZoom k s) = updateViewMatrix s
  /\ getZoom (decreaseZoom k (increaseZoom k s)) = getZoom s
  /\ (viewFresh s -> decreaseZoom k (increaseZoom k s) = s).
Proof.
  intros Hk.
  assert (decreaseZoom k (increaseZoom k s) = updateViewMatrix s) as Hdi.
  { unfold decreaseZoom, increaseZoom. rewrite !updateViewMatrix_eq.
    destruct s as [cam zm rot tr dr tpm ip fp itp ftp q dq tv dt rad uds].
    unfold composedView. simpl_fields.
    replace (zm * k / k) with zm by (field; exact Hk). reflexivity. }
  split; [exact Hdi|]. split.
  { unfold decreaseZoom, increaseZoom. rewrite !updateViewMatrix_eq.
    destruct s as [cam zm rot tr dr tpm ip fp itp ftp q dq tv dt rad uds].
    unfold composedView. simpl_fields.
    replace (zm / k * k) with zm by (field; exact Hk). reflexivity. }
  split; [now rewrite Hdi|].
  intros Hf. rewrite Hdi. now apply updateViewMatrix_fresh.
Qed.

(** Zoom operations compose.  In exact arithmetic two multiplications
    act as one multiplication by the product, a multiplication followed
    by a division as one multiplication by the quotient, and setting the
    zoom overrides whatever zoom operation came before. *)
Theorem zoom_composition s (a b : R) :
  increaseZoom b (increaseZoom a s) = increaseZoom (a * b) s
  /\ decreaseZoom b (increaseZoom a s) = increaseZoom (a / b) s
  /\ applyScaleToViewMatrix b (increaseZoom a s) = applyScaleToViewMatrix b s
  /\ applyScaleToViewMatrix b (decreaseZoom a s) = applyScaleToViewMatrix b s
  /\ applyScaleToViewMatrix b (applyScaleToViewMatrix a s)
     = applyScaleToViewMatrix b s.
Proof.
  unfold increaseZoom, decreaseZoom, applyScaleToViewMatrix.
  rewrite !updateViewMatrix_eq.
  destruct s as [cam zm rot tr dr tpm ip fp itp ftp q dq tv dt rad uds].
  unfold composedView. simpl_fields.
  replace (zm * a * b) with (zm * (a * b)) by ring.
  replace (zm * a / b) with (zm * (a / b)) by (unfold Rdiv; ring).
  repeat split.
Qed.

Lemma zoom_positive_step s (k : R) :
  0 < zoom s -> 0 < k ->
  0 < zoom (increaseZoom k s)
  /\ 0 < zoom (decreaseZoom k s)
  /\ 0 < zoom (applyScaleToViewMatrix k s).
Proof.
  intros Hz Hk. unfold increaseZoom, decreaseZoom, applyScaleToViewMatrix.
  rewrite !updateViewMatrix_eq. simpl_fields.
  split; [now apply Rmult_lt_0_compat|].
  split; [now apply Rdiv_lt_0_compat | exact Hk].
Qed.

Lemma zoom_positive_run_op o s :
  op_zoom_positive o -> 0 < zoom s -> 0 < zoom (run_op o s).
Proof.
  intros Hk Hz.
  destruct o; cbn [run_op op_zoom_positive] in *;
    try exact Hz; try exact Rlt_0_1;
    try exact (proj1 (zoom_positive_step s k Hz Hk));
    try exact (proj1 (proj2 (zoom_positive_step s k Hz Hk)));
    try exact (proj2 (proj2 (zoom_positive_step s k Hz Hk))).
  - unfold rotateCamera. destruct (negb (rotating s)); [exact Hz|].
    destruct (v2_neqb pos (head2 (initialPosition s))); [|exact Hz].
    cbv zeta. rewrite computeRotationAngle_eq. exact Hz.
  - unfold translateCamera. destruct (negb (translating s)); [exact Hz|].
    destruct (v2_neqb pos (head2 (initialPosition s))); exact Hz.
  - rewrite computeRotationAngle_eq. exact Hz.
Qed.

(** In exact arithmetic the zoom factor is positive after the
    constructor and stays positive under every sequence of operations
    whose zoom arguments are positive. *)
Theorem zoom_positive_invariant (raw : Trackball M) (os : list (Op M)) :
  Forall op_zoom_positive os ->
  0 < zoom (run_ops os (Trackball_ctor raw)).
Proof.
  assert (0 < zoom (Trackball_ctor raw)) as Hinit by exact Rlt_0_1.
  revert Hinit. generalize (Trackball_ctor raw).
  induction os as [|o os IH]; intros s Hz Hall; cbn [run_ops].
  - exact Hz.
  - inversion Hall as [|? ? Ho Hos]; subst.
    apply IH; [|exact Hos]. now apply zoom_positive_run_op.
Qed.
End Zoom.

(* ================================================================= *)
(** ** Reset, construction and the stored view matrix *)

Section ResetAndFreshness.
Context {M : Type} `{ViewOps M}.
Implicit Type s : Trackball M.

Lemma defaultTranslation_run_op o s :
  op_keeps_default_translation o ->
  defaultTranslation (run_op o s) = defaultTranslation s.
Proof.
  intros Hk. destruct o; cbn [run_op op_keeps_default_translation] in *;
    try reflexivity; try contradiction.
  - unfold rotateCamera. destruct (negb (rotating s)); [reflexivity|].
    destruct (v2_neqb pos (head2 (initialPosition s))); [|reflexivity].
    cbv zeta. rewrite computeRotationAngle_eq. reflexivity.
  - unfold translateCamera. destruct (negb (translating s)); [reflexivity|].
    destruct (v2_neqb pos (head2 (initialPosition s))); reflexivity.
  - rewrite computeRotationAngle_eq. reflexivity.
Qed.

Lemma defaultTranslation_run_ops os : forall s,
  Forall op_keeps_default_translation os ->
  defaultTranslation (run_ops os s) = defaultTranslation s.
Proof.
  induction os as [|o os IH]; intros s Hall; cbn [run_ops].
  - reflexivity.
  - inversion Hall as [|? ? Ho Hos]; subst.
    rewrite (IH _ Hos). now apply defaultTranslation_run_op.
Qed.

(** What [reset] produces depends on the default translation only. *)
Lemma reset_view_depends_on_default s1 s2 :
  defaultTranslation s1 = defaultTranslation s2 ->
  getViewMatrix (reset s1) = getViewMatrix (reset s2).
Proof.
  intros Heq. unfold reset. cbv zeta. rewrite !updateViewMatrix_eq.
  unfold getViewMatrix, composedView. simpl_fields.
  unfold resetViewMatrix. simpl_fields. now rewrite Heq.
Qed.

(** [reset] forgets the history.  Whatever operations ran before, as long
    as none of them reconfigured the default translation, [reset] leaves
    the same view matrix and the same accumulators as a [reset] of the
    original object; and a second [reset] changes nothing. *)
Theorem reset_forgets_history (os : list (Op M)) s :
  Forall op_keeps_default_translation os ->
  getViewMatrix (reset (run_ops os s)) = getViewMatrix (reset s)
  /\ quaternion (reset (run_ops os s)) = quaternion (reset s)
  /\ default_quaternion (reset (run_ops os s)) = default_quaternion (reset s)
  /\ translationVector (reset (run_ops os s)) = translationVector (reset s)
  /\ zoom (reset (run_ops os s)) = zoom (reset s)
  /\ rotating (reset (run_ops os s)) = rotating (reset s)
  /\ translating (reset (run_ops os s)) = translating (reset s)
  /\ reset (reset s) = reset s.
Proof.
  intros Hall. split.
  { apply reset_view_depends_on_default.
    now apply defaultTranslation_run_ops. }
  repeat (split; [reflexivity|]).
  unfold reset. cbv zeta. rewrite !updateViewMatrix_eq.
  destruct s as [cam zm rot tr dr tpm ip fp itp ftp q dq tv dt rad uds].
  unfold composedView, resetViewMatrix. simpl_fields. reflexivity.
Qed.

Lemma viewFresh_run_op o s :
  op_recomputes o = true -> viewFresh s -> viewFresh (run_op o s).
Proof.
  intros Hrec Hf. destruct o; cbn [run_op op_recomputes] in *;
    try discriminate; try exact Hf.
  - apply viewFresh_reset.
  - now apply viewFresh_rotateCamera.
  - now apply viewFresh_translateCamera.
  - apply viewFresh_zoom_operations.
  - apply viewFresh_zoom_operations.
  - apply viewFresh_zoom_operations.
  - apply viewFresh_updateViewMatrix.
Qed.

(** The view matrix is never stale under gestures and zoom.  After the
    constructor and any sequence of [reset], [rotateCamera],
    [translateCamera], [endRotation], [endTranslation], the three zoom
    operations, [updateViewMatrix], the render flag, the trackball
    projection matrix and the viewport, the stored view matrix is the
    composition of the current accumulators and defaults. *)
Theorem view_matrix_fresh_invariant (raw : Trackball M) (os : list (Op M)) :
  forallb op_recomputes os = true ->
  viewFresh (run_ops os (Trackball_ctor raw)).
Proof.
  assert (viewFresh (Trackball_ctor raw)) as Hinit.
  { unfold Trackball_ctor. cbv zeta. apply viewFresh_reset. }
  revert Hinit. generalize (Trackball_ctor raw).
  induction os as [|o os IH]; intros s Hf Hall; cbn [run_ops].
  - exact Hf.
  - cbn [forallb] in Hall. apply andb_true_iff in Hall as [Ho Hos].
    apply IH; [|exact Hos]. now apply viewFresh_run_op.
Qed.
End ResetAndFreshness.

(* ================================================================= *)
(** ** The view matrix on homogeneous matrices *)

Lemma translation_matrix_add a b :
  Affine.m4_mul (Affine.translation_matrix a) (Affine.translation_matrix b)
  = Affine.translation_matrix (v3_add a b).
Proof.
  destruct a as [ax ay az], b as [bx by_ bz].
  matrix_entries. unfold v3_add. cbn [v3x v3y v3z].
  f_equal; f_equal; ring.
Qed.

Lemma translation_matrix_inj a b :
  Affine.translation_matrix a = Affine.translation_matrix b -> a = b.
Proof.
  destruct a as [ax ay az], b as [bx by_ bz].
  unfold Affine.translation_matrix. cbn [v3x v3y v3z].
  intros Heq. injection Heq as Hx Hy Hz. now subst.
Qed.

(** With identity orientations, no pan and zoom one, the composition is
    the translation by the default translation. *)
Lemma composedView_at_rest (s : Trackball Affine.Matrix4f) :
  quaternion s = q_identity ->
  default_quaternion s = q_identity ->
  translationVector s = mkV3 0 0 0 ->
  zoom s = 1 ->
  composedView s = Affine.translation_matrix (defaultTranslation s).
Proof.
  intros Hq Hdq Ht Hz. unfold composedView. rewrite Hq, Hdq, Ht, Hz.
  cbn [mat_scale mat_translate mat_rotate mat_identity Affine.affine_ops].
  rewrite rotation_matrix_identity, translation_matrix_zero,
    scaling_matrix_one.
  now rewrite !m4_mul_identity_r, m4_mul_identity_l.
Qed.

Lemma reset_view_affine (s : Trackball Affine.Matrix4f) :
  getViewMatrix (reset s) = Affine.translation_matrix (defaultTranslation s).
Proof.
  rewrite (viewFresh_reset s).
  now rewrite composedView_at_rest.
Qed.

(** After [reset] the view matrix is the translation by the default
    translation, whatever the object held before. *)
Theorem reset_view_is_default_translation (s : Trackball Affine.Matrix4f) :
  getViewMatrix (reset s) = Affine.translation_matrix (defaultTranslation s).
Proof. exact (reset_view_affine s). Qed.

(** The constructor.  Whatever the storage held, the constructed
    controller is idle, has identity orientation and default orientation,
    no pan, zoom one, radius [0.8], default translation [(0, 0, -4)] and
    the render flag on; its view matrix is the translation by
    [(0, 0, -4)]: the extra translation applied by [initOpenGLMatrices] is
    overwritten by the final [reset].  The camera configuration and the
    gesture samples are the ones found in the storage. *)
Theorem constructor_postcondition (raw : Trackball Affine.Matrix4f) :
  let s := Trackball_ctor raw in
  rotating s = false /\ translating s = false
  /\ quaternion s = q_identity /\ default_quaternion s = q_identity
  /\ translationVector s = mkV3 0 0 0 /\ zoom s = 1
  /\ radius s = 8 / 10 /\ defaultTranslation s = mkV3 0 0 (-4)
  /\ drawTrackball s = true
  /\ trackballProjectionMatrix s = Affine.m4_identity
  /\ getViewMatrix s = Affine.translation_matrix (mkV3 0 0 (-4))
  /\ viewport (camera s) = viewport (camera raw)
  /\ projectionMatrix (camera s) = projectionMatrix (camera raw)
  /\ initialPosition s = initialPosition raw
  /\ finalPosition s = finalPosition raw
  /\ initialTranslationPosition s = initialTranslationPosition raw
  /\ finalTranslationPosition s = finalTranslationPosition raw.
Proof.
  cbv zeta.
  repeat (split; [reflexivity|]).
  split; [|repeat split].
  unfold Trackball_ctor. cbv zeta.
  now rewrite reset_view_affine.
Qed.

Lemma initOpenGLMatrices_view {M : Type} `{ViewOps M} (s : Trackball M) :
  getViewMatrix (initOpenGLMatrices s)
  = mat_translate (defaultTranslation s) (getViewMatrix (reset s)).
Proof. reflexivity. Qed.

(** [initOpenGLMatrices] called on its own translates twice: [reset]
    already composes the default translation into the view matrix and
    the function then applies it again.  The stored matrix is the
    translation by twice the default translation, and it is the
    composition of the state only when the default translation is
    zero. *)
Theorem initOpenGLMatrices_translates_twice (s : Trackball Affine.Matrix4f) :
  getViewMatrix (initOpenGLMatrices s)
  = Affine.translation_matrix
      (v3_add (defaultTranslation s) (defaultTranslation s))
  /\ composedView (initOpenGLMatrices s)
     = Affine.translation_matrix (defaultTranslation s)
  /\ (viewFresh (initOpenGLMatrices s)
      <-> defaultTranslation s = mkV3 0 0 0).
Proof.
  assert (getViewMatrix (initOpenGLMatrices s)
          = Affine.translation_matrix
              (v3_add (defaultTranslation s) (defaultTranslation s))) as Hv.
  { rewrite initOpenGLMatrices_view, reset_view_affine.
    cbn [mat_translate Affine.affine_ops].
    apply translation_matrix_add. }
  assert (composedView (initOpenGLMatrices s)
          = Affine.translation_matrix (defaultTranslation s)) as Hc
    by now rewrite composedView_at_rest.
  split; [exact Hv|]. split; [exact Hc|].
  unfold viewFresh. rewrite Hv, Hc. split.
  - intros Heq. apply translation_matrix_inj in Heq.
    destruct (defaultTranslation s) as [x y z].
    unfold v3_add in Heq. cbn [v3x v3y v3z] in Heq.
    injection Heq as Hx Hy Hz. f_equal; lra.
  - intros ->. f_equal. unfold v3_add. cbn [v3x v3y v3z]. f_equal; ring.
Qed.

(* ================================================================= *)
(** ** The two gestures do not interfere *)

Section GestureFrames.
Context {M : Type} `{ViewOps M}.
Implicit Type s : Trackball M.

(** A rotation call, whichever branch it takes, never touches the
    translation gesture (flag, samples, accumulated pan), the zoom, the
    defaults, the radius or the camera configuration; a translation call
    never touches the rotation gesture (flag, samples, orientation), the
    zoom, the defaults, the radius or the camera configuration. *)
Theorem gestures_do_not_interfere s (p : Vector2f) :
  (translationVector (rotateCamera p s) = translationVector s
   /\ translating (rotateCamera p s) = translating s
   /\ initialTranslationPosition (rotateCamera p s)
      = initialTranslationPosition s
   /\ finalTranslationPosition (rotateCamera p s)
      = finalTranslationPosition s
   /\ zoom (rotateCamera p s) = zoom s
   /\ default_quaternion (rotateCamera p s) = default_quaternion s
   /\ defaultTranslation (rotateCamera p s) = defaultTranslation s
   /\ radius (rotateCamera p s) = radius s
   /\ viewport (camera (rotateCamera p s)) = viewport (camera s)
   /\ projectionMatrix (camera (rotateCamera p s))
      = projectionMatrix (camera s))
  /\ (quaternion (translateCamera p s) = quaternion s
      /\ rotating (translateCamera p s) = rotating s
      /\ initialPosition (translateCamera p s) = initialPosition s
      /\ finalPosition (translateCamera p s) = finalPosition s
      /\ zoom (translateCamera p s) = zoom s
      /\ default_quaternion (translateCamera p s) = default_quaternion s
      /\ defaultTranslation (translateCamera p s) = defaultTranslation s
      /\ radius (translateCamera p s) = radius s
      /\ viewport (camera (translateCamera p s)) = viewport (camera s)
      /\ projectionMatrix (camera (translateCamera p s))
         = projectionMatrix (camera s)).
Proof.
  split.
  - unfold rotateCamera. destruct (negb (rotating s)); [repeat split|].
    destruct (v2_neqb p (head2 (initialPosition s))); [|repeat split].
    cbv zeta. rewrite computeRotationAngle_eq. repeat split.
  - unfold translateCamera. destruct (negb (translating s)); [repeat split|].
    destruct (v2_neqb p (head2 (initialPosition s))); repeat split.
Qed.
End GestureFrames.

(* ================================================================= *)
(** ** Normalized coordinates and the surface *)

Section Normalization.
Context {M : Type}.
Implicit Type s : Trackball M.

(** [normalizePosition] in exact arithmetic, on a viewport of positive
    extents [w] and [h]: the screen origin goes to [(-1, 1)], the point
    [(w, h)] to [(1, -1)] and the point [(w/2, h/2)] to the centre; every
    position with
    [0 <= x <= w] and [0 <= y <= h] lands in the square [[-1,1] x [-1,1]].
    Only the extents of the viewport enter, its origin is not
    subtracted. *)
Theorem normalizePosition_range s (p : Vector2f) :
  let w := v4c (viewport (camera s)) - v4a (viewport (camera s)) in
  let h := v4d (viewport (camera s)) - v4b (viewport (camera s)) in
  0 < w -> 0 < h ->
  normalizePosition s (mkV2 0 0) = mkV2 (-1) 1
  /\ normalizePosition s (mkV2 w h) = mkV2 1 (-1)
  /\ normalizePosition s (mkV2 (w / 2) (h / 2)) = mkV2 0 0
  /\ (0 <= v2x p <= w -> -1 <= v2x (normalizePosition s p) <= 1)
  /\ (0 <= v2y p <= h -> -1 <= v2y (normalizePosition s p) <= 1).
Proof.
  cbv zeta. unfold normalizePosition.
  set (w := v4c (viewport (camera s)) - v4a (viewport (camera s))).
  set (h := v4d (viewport (camera s)) - v4b (viewport (camera s))).
  intros Hw Hh. cbn [v2x v2y].
  split; [f_equal; field; lra|].
  split; [f_equal; field; lra|].
  split; [f_equal; field; lra|].
  assert (forall x, x / (w / 2) = 2 * x / w) as Ew by (intros; field; lra).
  assert (forall y, y / (h / 2) = 2 * y / h) as Eh by (intros; field; lra).
  split.
  - intros [Hlo Hhi]. rewrite Ew.
    assert (0 <= 2 * v2x p / w)
      by (apply Rmult_le_pos; [lra | left; now apply Rinv_0_lt_compat]).
    assert (2 * v2x p / w <= 2).
    { apply (Rmult_le_reg_r w); [exact Hw|].
      replace (2 * v2x p / w * w) with (2 * v2x p) by (field; lra). lra. }
    lra.
  - intros [Hlo Hhi]. rewrite Eh.
    assert (0 <= 2 * v2y p / h)
      by (apply Rmult_le_pos; [lra | left; now apply Rinv_0_lt_compat]).
    assert (2 * v2y p / h <= 2).
    { apply (Rmult_le_reg_r h); [exact Hh|].
      replace (2 * v2y p / h * h) with (2 * v2y p) by (field; lra). lra. }
    lra.
Qed.

End Normalization.

(* ================================================================= *)
(** ** What the incremental rotation does *)

Lemma v3_lagrange a b :
  v3_squaredNorm (v3_cross a b)
  = v3_squaredNorm a * v3_squaredNorm b - v3_dot a b * v3_dot a b.
Proof.
  destruct a, b. unfold v3_squaredNorm, v3_dot, v3_cross. cbn [v3x v3y v3z].
  ring.
Qed.

Lemma v3_unit_squaredNorm a : v3_norm a = 1 -> v3_squaredNorm a = 1.
Proof. intros Hn. rewrite <- v3_norm_sqr, Hn. ring. Qed.

(** Applying the quaternion [(c, k (a x b))] to [a]. *)
Lemma q_transform_cross c k a b :
  q_transform
    (mkQ c (k * v3x (v3_cross a b)) (k * v3y (v3_cross a b))
       (k * v3z (v3_cross a b))) a
  = v3_add
      (v3_scale (1 - 2 * (k * k) * v3_squaredNorm (v3_cross a b)) a)
      (v3_scale (2 * c * k)
         (v3_add (v3_scale (v3_dot a a) b) (v3_scale (- v3_dot a b) a))).
Proof.
  destruct a as [ax ay az], b as [bx by_ bz].
  unfold q_transform, q_vec, v3_add, v3_scale, v3_cross, v3_squaredNorm,
    v3_dot.
  cbn [qw qx qy qz v3x v3y v3z]. f_equal; ring.
Qed.

Lemma q_transform_identity v : q_transform (mkQ 1 0 0 0) v = v.
Proof.
  destruct v. unfold q_transform, q_vec, v3_add, v3_scale, v3_cross.
  cbn [qw qx qy qz v3x v3y v3z]. f_equal; ring.
Qed.

Lemma v3_unit_dot_one a b :
  v3_norm a = 1 -> v3_norm b = 1 -> v3_dot a b = 1 -> a = b.
Proof.
  intros Ha Hb Hd.
  apply v3_unit_squaredNorm in Ha. apply v3_unit_squaredNorm in Hb.
  destruct a as [ax ay az], b as [bx by_ bz].
  unfold v3_squaredNorm, v3_dot in *. cbn [v3x v3y v3z] in *.
  assert ((ax - bx) * (ax - bx) + (ay - by_) * (ay - by_)
          + (az - bz) * (az - bz) = 0) as Hz by lra.
  pose proof (Rle_0_sqr (ax - bx)) as H1.
  pose proof (Rle_0_sqr (ay - by_)) as H2.
  pose proof (Rle_0_sqr (az - bz)) as H3. unfold Rsqr in *.
  assert ((ax - bx) * (ax - bx) = 0) as E1 by lra.
  assert ((ay - by_) * (ay - by_) = 0) as E2 by lra.
  assert ((az - bz) * (az - bz) = 0) as E3 by lra.
  apply Rsqr_0_uniq in E1. apply Rsqr_0_uniq in E2. apply Rsqr_0_uniq in E3.
  f_equal; lra.
Qed.


Lemma rotation_increment_turns a b :
  v3_norm a = 1 -> v3_norm b = 1 -> -1 < v3_dot a b ->
  q_norm (rotation_increment a b) = 1
  /\ q_transform (rotation_increment a b) a = b.
Proof.
  intros Ha Hb Hdot.
  pose proof (v3_unit_squaredNorm a Ha) as Sa.
  pose proof (v3_unit_squaredNorm b Hb) as Sb.
  pose proof (v3_lagrange a b) as Hlag. rewrite Sa, Sb in Hlag.
  pose proof (v3_squaredNorm_nonneg (v3_cross a b)) as Hnn.
  set (d := v3_dot a b) in *.
  assert (-1 < d <= 1) as Hd.
  { split; [exact Hdot|].
    destruct (Rle_dec d 1) as [Hok | Hbad]; [exact Hok|].
    assert (1 < d * d) by (apply Rlt_trans with (1 * d);
      [lra | apply Rmult_lt_compat_r; lra]).
    lra. }
  unfold rotation_increment. fold d.
  destruct (Rle_dec d 1) as [_ | Hbad]; [|lra].
  destruct (Req_dec_T (v3_norm (v3_cross a b)) 0) as [Hzero | Hnz].
  - pose proof Hzero as Hm. apply v3_norm_zero_inv in Hm.
    rewrite Hm in Hlag.
    unfold v3_squaredNorm, v3_dot in Hlag. cbn [v3x v3y v3z] in Hlag.
    assert (d = 1) as Hd1.
    { assert ((d - 1) * (d + 1) = 0) as Hp by lra.
      apply Rmult_integral in Hp. lra. }
    rewrite Hm, q_angle_zero_axis, Hd1, acos_1.
    replace (0 / 2) with 0 by field. rewrite cos_0.
    split; [apply q_norm_real; lra|].
    rewrite q_transform_identity.
    apply v3_unit_dot_one; assumption.
  - set (L := v3_norm (v3_cross a b)) in *.
    assert (0 <= L) as HL0 by apply v3_norm_nonneg.
    assert (0 < L) as HL by lra.
    assert (L * L = 1 - d * d) as HLL
      by (unfold L; rewrite v3_norm_sqr; lra).
    split.
    { apply q_norm_angle_unit_axis. apply v3_norm_normalize. exact HL. }
    set (theta := acos d).
    assert (cos theta = d) as Hcos by (apply cos_acos; lra).
    assert (sin theta = L) as Hsin.
    { unfold theta. rewrite sin_acos by lra. unfold Rsqr.
      rewrite <- HLL. apply sqrt_square. lra. }
    pose proof (cos_2a (theta / 2)) as Hc2.
    pose proof (sin_2a (theta / 2)) as Hs2.
    pose proof (sin2_cos2 (theta / 2)) as Hsc. unfold Rsqr in Hsc.
    replace (2 * (theta / 2)) with theta in Hc2, Hs2 by field.
    rewrite Hcos in Hc2. rewrite Hsin in Hs2.
    set (c := cos (theta / 2)) in *. set (sn := sin (theta / 2)) in *.
    assert (q_of_angle_axis theta (v3_normalize (v3_cross a b))
            = mkQ c (sn / L * v3x (v3_cross a b))
                (sn / L * v3y (v3_cross a b))
                (sn / L * v3z (v3_cross a b))) as Hq.
    { unfold q_of_angle_axis, v3_normalize. fold L. fold c. fold sn.
      cbn [v3x v3y v3z]. f_equal; field; lra. }
    rewrite Hq, q_transform_cross. fold d.
    change (v3_dot a a) with (v3_squaredNorm a). rewrite Sa.
    rewrite <- (v3_norm_sqr (v3_cross a b)). fold L.
    replace (1 - 2 * (sn / L * (sn / L)) * (L * L)) with (1 - 2 * (sn * sn))
      by (field; lra).
    replace (2 * c * (sn / L)) with 1.
    2:{ apply (Rmult_eq_reg_r L); [|lra].
        replace (2 * c * (sn / L) * L) with (2 * sn * c) by (field; lra).
        lra. }
    destruct a as [ax ay az], b as [bx by_ bz].
    unfold v3_add, v3_scale. cbn [v3x v3y v3z].
    assert (1 - 2 * (sn * sn) = d) as Hhalf by lra.
    rewrite Hhalf. f_equal; ring.
Qed.

(** The incremental rotation turns the old sample into the new one.  For
    unit samples [a] and [b] that are not opposite, the quaternion that
    [computeRotationAngle] builds from them has norm one and, applied to
    [a], gives [b]. *)
Theorem rotation_increment_maps_sample a b :
  v3_norm a = 1 -> v3_norm b = 1 -> -1 < v3_dot a b ->
  q_norm (rotation_increment a b) = 1
  /\ q_transform (rotation_increment a b) a = b.
Proof. exact (rotation_increment_turns a b). Qed.

Section RotationStep.
Context {M : Type} `{ViewOps M}.
Implicit Type s : Trackball M.

End RotationStep.

(* ================================================================= *)
(** ** Panning *)

Lemma q_transform_add q v w :
  q_transform q (v3_add v w) = v3_add (q_transform q v) (q_transform q w).
Proof.
  destruct q, v, w. unfold q_transform, q_vec, v3_add, v3_scale, v3_cross.
  cbn [qw qx qy qz v3x v3y v3z]. f_equal; ring.
Qed.

Lemma q_transform_zero q : q_transform q (mkV3 0 0 0) = mkV3 0 0 0.
Proof.
  destruct q. unfold q_transform, q_vec, v3_add, v3_scale, v3_cross.
  cbn [qw qx qy qz v3x v3y v3z]. f_equal; ring.
Qed.



(** The coordinates of [q * v]. *)
Lemma q_transform_components w x y z vx vy vz :
  q_transform (mkQ w x y z) (mkV3 vx vy vz)
  = mkV3
      (vx + 2 * w * (y * vz - z * vy)
       + 2 * (y * (x * vy - y * vx) - z * (z * vx - x * vz)))
      (vy + 2 * w * (z * vx - x * vz)
       + 2 * (z * (y * vz - z * vy) - x * (x * vy - y * vx)))
      (vz + 2 * w * (x * vy - y * vx)
       + 2 * (x * (z * vx - x * vz) - y * (y * vz - z * vy))).
Proof.
  unfold q_transform, q_vec, v3_add, v3_scale, v3_cross.
  cbn [qw qx qy qz v3x v3y v3z]. f_equal; ring.
Qed.




Section PanStep.
Context {M : Type} `{ViewOps M}.
Implicit Type s : Trackball M.


Lemma translateCamera_two_updates s (p1 p2 : Vector2f) :
  translating s = true ->
  v2_neqb p1 (head2 (initialPosition s)) = true ->
  v2_neqb p2 (head2 (initialPosition s)) = true ->
  translateCamera p2 (translateCamera p1 s) = translateCamera p2 s.
Proof.
  intros Htr Hg1 Hg2.
  rewrite (translateCamera_active s p1 Htr), Hg1.
  rewrite (translateCamera_active s p2 Htr), Hg2.
  set (s1 := set_initialTranslationPosition (normalizePosition s p1) _).
  assert (translating s1 = true) as Htr1 by exact Htr.
  rewrite (translateCamera_active s1 p2 Htr1).
  change (initialPosition s1) with (initialPosition s). rewrite Hg2.
  change (normalizePosition s1 p2) with (normalizePosition s p2).
  subst s1. rewrite !updateViewMatrix_eq. unfold computeTranslationVector.
  set (n1 := normalizePosition s p1). set (n2 := normalizePosition s p2).
  destruct s as [cam zm rot tr dr tpm ip fp itp ftp q dq tv dt rad uds].
  unfold composedView. simpl_fields.
  assert (v3_add
            (v3_add tv
               (q_transform (q_inverse q)
                  (mkV3 (v2x (v2_sub n1 itp)) (v2y (v2_sub n1 itp)) 0)))
            (q_transform (q_inverse q)
               (mkV3 (v2x (v2_sub n2 n1)) (v2y (v2_sub n2 n1)) 0))
          = v3_add tv
              (q_transform (q_inverse q)
                 (mkV3 (v2x (v2_sub n2 itp)) (v2y (v2_sub n2 itp)) 0)))
    as Hsum.
  { generalize (q_inverse q). intros qi.
    destruct qi as [w x y z], tv as [tx ty tz], n1 as [a1 b1],
      n2 as [a2 b2], itp as [a0 b0].
    unfold v2_sub. cbn [v2x v2y]. rewrite !q_transform_components.
    unfold v3_add. cbn [v3x v3y v3z]. f_equal; ring. }
  rewrite Hsum. reflexivity.
Qed.

(** Panning does not depend on the path.  During a translation gesture,
    two updates that both pass the guard leave the object as the second
    update alone would. *)
Theorem translateCamera_path_independent s (p1 p2 : Vector2f) :
  translating s = true ->
  v2_neqb p1 (head2 (initialPosition s)) = true ->
  v2_neqb p2 (head2 (initialPosition s)) = true ->
  translateCamera p2 (translateCamera p1 s) = translateCamera p2 s.
Proof. exact (translateCamera_two_updates s p1 p2). Qed.

End PanStep.

(* ================================================================= *)
(** ** Direct changes of the accumulators *)



Section DirectMutation.
Context {M : Type} `{ViewOps M}.
Implicit Type s : Trackball M.


(** [translateViewMatrix] adds its argument to the pan and changes
    nothing else, the stored view matrix included.  In exact arithmetic two
    calls act as one call with the sum, the order of two calls does not
    matter, and the opposite vector undoes a call. *)
Theorem translateViewMatrix_algebra s (a b : Vector3f) :
  translationVector (translateViewMatrix a s) = v3_add (translationVector s) a
  /\ translateViewMatrix a s
     = set_translationVector (v3_add (translationVector s) a) s
  /\ getViewMatrix (translateViewMatrix a s) = getViewMatrix s
  /\ translateViewMatrix b (translateViewMatrix a s)
     = translateViewMatrix (v3_add a b) s
  /\ translateViewMatrix b (translateViewMatrix a s)
     = translateViewMatrix a (translateViewMatrix b s)
  /\ translateViewMatrix (v3_opp a) (translateViewMatrix a s) = s.
Proof.
  split; [reflexivity|]. split; [reflexivity|]. split; [reflexivity|].
  unfold translateViewMatrix.
  destruct s as [cam zm rot tr dr tpm ip fp itp ftp qs dq tv dt rad uds].
  simpl_fields.
  assert (v3_add (v3_add tv a) b = v3_add tv (v3_add a b)) as E1
    by (destruct tv, a, b; unfold v3_add; cbn [v3x v3y v3z]; f_equal; ring).
  assert (v3_add (v3_add tv a) b = v3_add (v3_add tv b) a) as E2
    by (destruct tv, a, b; unfold v3_add; cbn [v3x v3y v3z]; f_equal; ring).
  assert (v3_add (v3_add tv a) (v3_opp a) = tv) as E3
    by (destruct tv, a; unfold v3_add, v3_opp; cbn [v3x v3y v3z];
        f_equal; ring).
  rewrite E3, <- E2, E1. repeat split.
Qed.
End DirectMutation.

(* ================================================================= *)
(** ** The composed rotation *)

Section Boundaries.
Context {M : Type} `{ViewOps M}.
Implicit Type s : Trackball M.

End Boundaries.

(* ================================================================= *)
(** ** The further theorems at concrete inputs *)



Lemma v3_norm_ez : v3_norm (mkV3 0 0 1) = 1.
Proof.
  unfold v3_norm, v3_squaredNorm, v3_dot. cbn [v3x v3y v3z].
  replace (0 * 0 + 0 * 0 + 1 * 1) with 1 by ring. apply sqrt_1.
Qed.

Lemma v3_norm_ex : v3_norm (mkV3 1 0 0) = 1.
Proof.
  unfold v3_norm, v3_squaredNorm, v3_dot. cbn [v3x v3y v3z].
  replace (1 * 1 + 0 * 0 + 0 * 0) with 1 by ring. apply sqrt_1.
Qed.

Lemma panning_rotation_sample :
  initialPosition Scenario.panning = mkV3 0 0 (8 / 10).
Proof.
  unfold Scenario.panning.
  rewrite (scenario_panning Scenario.start eq_refl eq_refl eq_refl eq_refl).
  reflexivity.
Qed.

Lemma begun_rotation_sample :
  initialPosition Scenario.begun = mkV3 0 0 (8 / 10).
Proof.
  unfold Scenario.begun.
  rewrite (scenario_begun Scenario.start eq_refl eq_refl eq_refl).
  reflexivity.
Qed.

Lemma guard_passes_off_origin (x y z : R) (p : Vector2f) :
  v2x p <> x -> v2_neqb p (head2 (mkV3 x y z)) = true.
Proof.
  intros Hne. apply v2_neqb_true. unfold head2. cbn [v3x v3y].
  intros Heq. apply Hne. now rewrite Heq.
Qed.

Lemma initOpenGLMatrices_translates_twice_witness :
  defaultTranslation (setDefaultTranslation (mkV3 0 0 0) Scenario.fresh0)
  = mkV3 0 0 0
  /\ viewFresh
       (initOpenGLMatrices
          (setDefaultTranslation (mkV3 0 0 0) Scenario.fresh0)).
Proof.
  split; [reflexivity|].
  exact (proj2 (proj2 (proj2
    (initOpenGLMatrices_translates_twice
       (setDefaultTranslation (mkV3 0 0 0) Scenario.fresh0)))) eq_refl).
Defined.

Lemma zoom_round_trip_witness :
  2 <> 0
  /\ getZoom (decreaseZoom 2 (increaseZoom 2 Scenario.fresh0))
     = getZoom Scenario.fresh0.
Proof.
  assert (2 <> 0) as Hk by lra.
  split; [exact Hk|].
  exact (proj1 (proj2 (proj2 (zoom_round_trip Scenario.fresh0 2 Hk)))).
Defined.

Lemma zoom_positive_invariant_witness :
  Forall (@op_zoom_positive Affine.Matrix4f)
    (cons (OpIncreaseZoom 2) (cons (OpDecreaseZoom 4) nil))
  /\ 0 < zoom (run_ops (cons (OpIncreaseZoom 2) (cons (OpDecreaseZoom 4) nil))
                 (Trackball_ctor Scenario.raw0)).
Proof.
  assert (Forall (@op_zoom_positive Affine.Matrix4f)
            (cons (OpIncreaseZoom 2) (cons (OpDecreaseZoom 4) nil))) as Hall.
  { repeat constructor; cbn [op_zoom_positive]; lra. }
  split; [exact Hall|].
  exact (zoom_positive_invariant Scenario.raw0 _ Hall).
Defined.

Lemma reset_forgets_history_witness :
  Forall (@op_keeps_default_translation Affine.Matrix4f)
    (cons (OpRotateCamera (mkV2 400 300))
       (cons (OpIncreaseZoom 2) (cons (OpSetDefaultRotation (mkQ 0 1 0 0)) nil)))
  /\ getViewMatrix
       (reset (run_ops
                 (cons (OpRotateCamera (mkV2 400 300))
                    (cons (OpIncreaseZoom 2)
                       (cons (OpSetDefaultRotation (mkQ 0 1 0 0)) nil)))
                 Scenario.start))
     = getViewMatrix (reset Scenario.start).
Proof.
  assert (Forall (@op_keeps_default_translation Affine.Matrix4f)
            (cons (OpRotateCamera (mkV2 400 300))
               (cons (OpIncreaseZoom 2)
                  (cons (OpSetDefaultRotation (mkQ 0 1 0 0)) nil)))) as Hall.
  { repeat constructor. }
  split; [exact Hall|].
  exact (proj1 (reset_forgets_history _ Scenario.start Hall)).
Defined.

Lemma view_matrix_fresh_invariant_witness :
  forallb (@op_recomputes Affine.Matrix4f)
    (cons (OpSetViewport (mkV4 0 0 800 600))
       (cons (OpRotateCamera (mkV2 400 300))
          (cons (OpRotateCamera (mkV2 600 300))
             (cons (OpIncreaseZoom 2) nil)))) = true
  /\ viewFresh
       (run_ops
          (cons (OpSetViewport (mkV4 0 0 800 600))
             (cons (OpRotateCamera (mkV2 400 300))
                (cons (OpRotateCamera (mkV2 600 300))
                   (cons (OpIncreaseZoom 2) nil))))
          (Trackball_ctor Scenario.raw0)).
Proof.
  split; [reflexivity|].
  exact (view_matrix_fresh_invariant Scenario.raw0
           (cons (OpSetViewport (mkV4 0 0 800 600))
              (cons (OpRotateCamera (mkV2 400 300))
                 (cons (OpRotateCamera (mkV2 600 300))
                    (cons (OpIncreaseZoom 2) nil))))
           eq_refl).
Defined.

Lemma normalizePosition_range_witness :
  0 < 800 - 0 /\ 0 < 600 - 0 /\ 0 <= 200 <= 800 - 0
  /\ -1 <= v2x (normalizePosition Scenario.start (mkV2 200 150)) <= 1.
Proof.
  assert (0 < 800 - 0) as Hw by lra.
  assert (0 < 600 - 0) as Hh by lra.
  assert (0 <= 200 <= 800 - 0) as Hx by lra.
  split; [exact Hw|]. split; [exact Hh|]. split; [exact Hx|].
  exact (proj1 (proj2 (proj2 (proj2
    (normalizePosition_range Scenario.start (mkV2 200 150) Hw Hh)))) Hx).
Defined.


Lemma rotation_increment_maps_sample_witness :
  v3_norm (mkV3 0 0 1) = 1 /\ v3_norm (mkV3 1 0 0) = 1
  /\ -1 < v3_dot (mkV3 0 0 1) (mkV3 1 0 0)
  /\ q_transform (rotation_increment (mkV3 0 0 1) (mkV3 1 0 0)) (mkV3 0 0 1)
     = mkV3 1 0 0.
Proof.
  assert (-1 < v3_dot (mkV3 0 0 1) (mkV3 1 0 0)) as Hd
    by (unfold v3_dot; cbn [v3x v3y v3z]; lra).
  split; [exact v3_norm_ez|]. split; [exact v3_norm_ex|].
  split; [exact Hd|].
  exact (proj2 (rotation_increment_maps_sample _ _ v3_norm_ez v3_norm_ex Hd)).
Defined.


Lemma panning_guard (p : Vector2f) :
  v2x p <> 0 ->
  v2_neqb p (head2 (initialPosition Scenario.panning)) = true.
Proof.
  intros Hne. rewrite panning_rotation_sample.
  now apply guard_passes_off_origin.
Qed.


Lemma translateCamera_path_independent_witness :
  translating Scenario.panning = true
  /\ v2_neqb (mkV2 600 300) (head2 (initialPosition Scenario.panning)) = true
  /\ v2_neqb (mkV2 200 100) (head2 (initialPosition Scenario.panning)) = true
  /\ translateCamera (mkV2 200 100)
       (translateCamera (mkV2 600 300) Scenario.panning)
     = translateCamera (mkV2 200 100) Scenario.panning.
Proof.
  assert (translating Scenario.panning = true) as Htr by reflexivity.
  assert (v2_neqb (mkV2 600 300) (head2 (initialPosition Scenario.panning))
          = true) as Hg1 by (apply panning_guard; cbn [v2x]; lra).
  assert (v2_neqb (mkV2 200 100) (head2 (initialPosition Scenario.panning))
          = true) as Hg2 by (apply panning_guard; cbn [v2x]; lra).
  split; [exact Htr|]. split; [exact Hg1|]. split; [exact Hg2|].
  exact (translateCamera_path_independent Scenario.panning _ _ Htr Hg1 Hg2).
Defined.




(* ================================================================= *)
(** ** Bounding boxes *)

Module BoundingBox3Facts.
Import BoundingBox3.

Ltac minmax :=
  unfold std_min, std_max;
  repeat match goal with
         | |- context [Rlt_dec ?a ?b] =>
             lazymatch a with
             | context [Rlt_dec _ _] => fail
             | _ =>
                 lazymatch b with
                 | context [Rlt_dec _ _] => fail
                 | _ => destruct (Rlt_dec a b)
                 end
             end
         end;
  lra.

Lemma box_eq a b :
  v3x (min_ a) = v3x (min_ b) -> v3y (min_ a) = v3y (min_ b) ->
  v3z (min_ a) = v3z (min_ b) -> v3x (max_ a) = v3x (max_ b) ->
  v3y (max_ a) = v3y (max_ b) -> v3z (max_ a) = v3z (max_ b) ->
  a = b.
Proof.
  destruct a as [[a1 a2 a3] [a4 a5 a6]], b as [[b1 b2 b3] [b4 b5 b6]].
  cbn [min_ max_ v3x v3y v3z]. intros; subst. reflexivity.
Qed.

(** The union of boxes.  [operator+] is commutative, associative and
    idempotent, and adding a point is the union with the box that has the
    point as both corners. *)
Theorem plus_semilattice (a b c : Box) (p : Vector3f) :
  plus a b = plus b a
  /\ plus (plus a b) c = plus a (plus b c)
  /\ plus a a = a
  /\ plus_point a p = plus a (mkBox p p).
Proof.
  split; [|split; [|split]].
  - apply box_eq; unfold plus, box6, Min, Max; cbn [min_ max_ v3x v3y v3z];
      minmax.
  - apply box_eq; unfold plus, box6, Min, Max; cbn [min_ max_ v3x v3y v3z];
      minmax.
  - apply box_eq; unfold plus, box6, Min, Max; cbn [min_ max_ v3x v3y v3z];
      minmax.
  - reflexivity.
Qed.

(** The union bounds whatever one of the two boxes bounds. *)
Theorem plus_bounds (a b : Box) (p : Vector3f) :
  bounds a p \/ bounds b p -> bounds (plus a b) p.
Proof.
  unfold bounds, plus, box6, Min, Max. cbn [min_ max_ v3x v3y v3z].
  intros [(Hx & Hy & Hz) | (Hx & Hy & Hz)];
    (split; [|split]); split; minmax.
Qed.

Lemma cloud_step_plus_point b p : cloud_step b p = plus_point b p.
Proof.
  apply box_eq; unfold cloud_step, assign, plus, plus_point, box6, Min, Max;
    cbn [min_ max_ v3x v3y v3z]; minmax.
Qed.

Lemma plus_point_bounds_new b p : bounds (plus_point b p) p.
Proof.
  unfold bounds, plus_point, box6. cbn [min_ max_ v3x v3y v3z].
  (split; [|split]); split; minmax.
Qed.

Lemma plus_point_bounds_old b p q :
  bounds b q -> bounds (plus_point b p) q.
Proof.
  unfold bounds, plus_point, box6. cbn [min_ max_ v3x v3y v3z].
  intros (Hx & Hy & Hz). (split; [|split]); split; minmax.
Qed.

Lemma fold_plus_point_bounds_old pts : forall b q,
  bounds b q -> bounds (fold_left plus_point pts b) q.
Proof.
  induction pts as [|p pts IH]; intros b q Hb; cbn [fold_left].
  - exact Hb.
  - apply IH. now apply plus_point_bounds_old.
Qed.

Lemma fold_cloud_step pts : forall b,
  fold_left cloud_step pts b = fold_left plus_point pts b.
Proof.
  induction pts as [|p pts IH]; intros b; cbn [fold_left].
  - reflexivity.
  - now rewrite cloud_step_plus_point, IH.
Qed.

(** [fromPointCloud] computes the bounds of the cloud.  The loop, which
    builds a box from the current bounds and the point and then takes the
    union, adds the points one by one; every point of the cloud lies
    within the resulting bounds; and the empty cloud leaves the box as
    [reset] made it, with [Min] at the largest and [Max] at the smallest
    representable coordinate. *)
Theorem fromPointCloud_bounds (real_max : R) (points : list Vector3f)
    (p : Vector3f) :
  fromPointCloud real_max points
  = fold_left plus_point points (reset real_max)
  /\ (In p points -> bounds (fromPointCloud real_max points) p)
  /\ fromPointCloud real_max nil = reset real_max.
Proof.
  unfold fromPointCloud. rewrite fold_cloud_step.
  split; [reflexivity|]. split; [|reflexivity].
  generalize (reset real_max).
  induction points as [|q points IH]; intros b Hin; cbn [fold_left].
  - contradiction.
  - destruct Hin as [-> | Hin].
    + apply fold_plus_point_bounds_old, plus_point_bounds_new.
    + now apply IH.
Qed.

(** The bounds are tight: when every coordinate of the cloud lies between
    [- real_max] and [real_max], a box that bounds every point of a
    cloud with at least one point contains the computed box. *)
Theorem fromPointCloud_least (real_max : R) (points : list Vector3f)
    (b : Box) :
  points <> nil ->
  (forall p, In p points ->
     - real_max <= v3x p <= real_max
     /\ - real_max <= v3y p <= real_max
     /\ - real_max <= v3z p <= real_max) ->
  (forall p, In p points -> bounds b p) ->
  bounds b (Min (fromPointCloud real_max points))
  /\ bounds b (Max (fromPointCloud real_max points)).
Proof.
  intros Hne Hrange Hb.
  unfold fromPointCloud. rewrite fold_cloud_step.
  destruct points as [|p0 points]; [contradiction|]. clear Hne.
  cbn [fold_left].
  assert (plus_point (reset real_max) p0 = mkBox p0 p0) as Hfirst.
  { destruct (Hrange p0 (or_introl eq_refl)) as (Hx & Hy & Hz).
    destruct p0 as [x y z]. cbn [v3x v3y v3z] in *.
    apply box_eq; unfold plus_point, reset, box6;
      cbn [min_ max_ v3x v3y v3z]; minmax. }
  rewrite Hfirst.
  assert (bounds b (Min (mkBox p0 p0)) /\ bounds b (Max (mkBox p0 p0)))
    as Hinit by (split; apply Hb; now left).
  assert (forall p, In p points -> bounds b p) as Hb'
    by (intros p Hp; apply Hb; now right).
  clear Hb Hrange Hfirst. revert Hinit. generalize (mkBox p0 p0).
  induction points as [|q points IH]; intros c Hc; cbn [fold_left].
  - exact Hc.
  - apply IH.
    + intros p Hp. apply Hb'. now right.
    + pose proof (Hb' q (or_introl eq_refl)) as (Hx & Hy & Hz).
      destruct Hc as [(Hx1 & Hy1 & Hz1) (Hx2 & Hy2 & Hz2)].
      unfold bounds, plus_point, box6, Min, Max in *.
      cbn [min_ max_ v3x v3y v3z] in *.
      split; (split; [|split]); split; minmax.
Qed.

Lemma plus_point_swap b p q :
  plus_point (plus_point b p) q = plus_point (plus_point b q) p.
Proof.
  apply box_eq; unfold plus_point, box6; cbn [min_ max_ v3x v3y v3z]; minmax.
Qed.

(** The order of the points does not matter: a permutation of the cloud
    gives the same box. *)
Theorem fromPointCloud_permutation (real_max : R)
    (points points' : list Vector3f) :
  Permutation points points' ->
  fromPointCloud real_max points = fromPointCloud real_max points'.
Proof.
  intros Hperm. unfold fromPointCloud. rewrite !fold_cloud_step.
  generalize (reset real_max).
  induction Hperm as [|x l l' Hp IH|x y l|l l' l'' Hp1 IH1 Hp2 IH2];
    intros b; cbn [fold_left].
  - reflexivity.
  - apply IH.
  - now rewrite plus_point_swap.
  - now rewrite IH1, IH2.
Qed.

Lemma intersect_true_iff a b :
  intersect a b = true <->
  (v3x (max_ b) > v3x (min_ a) /\ v3x (min_ b) < v3x (max_ a)
   /\ v3y (max_ b) > v3y (min_ a) /\ v3y (min_ b) < v3y (max_ a)
   /\ v3z (max_ b) > v3z (min_ a) /\ v3z (min_ b) < v3z (max_ a)).
Proof.
  unfold intersect, Min, Max. rewrite !andb_true_iff.
  repeat match goal with
         | |- context [Rgt_dec ?x ?y] => destruct (Rgt_dec x y)
         | |- context [Rlt_dec ?x ?y] => destruct (Rlt_dec x y)
         end;
    split; intros H; try tauto;
    repeat match goal with
           | H : _ /\ _ |- _ => destruct H
           end;
    try discriminate; try contradiction.
Qed.

(** The intersection test of two boxes is symmetric, a box with
    [Min < Max] in every coordinate intersects itself, and a box that
    intersects another one still does after it has grown by a union. *)
Theorem intersect_properties (a b c : Box) :
  intersect a b = intersect b a
  /\ (v3x (min_ a) < v3x (max_ a) -> v3y (min_ a) < v3y (max_ a) ->
      v3z (min_ a) < v3z (max_ a) -> intersect a a = true)
  /\ (intersect a b = true -> intersect (plus a c) b = true).
Proof.
  split; [|split].
  - destruct (intersect a b) eqn:Hab, (intersect b a) eqn:Hba;
      try reflexivity.
    + apply intersect_true_iff in Hab.
      assert (intersect b a = true) as Habs
        by (apply intersect_true_iff; unfold Rgt in *; tauto).
      congruence.
    + apply intersect_true_iff in Hba.
      assert (intersect a b = true) as Habs
        by (apply intersect_true_iff; unfold Rgt in *; tauto).
      congruence.
  - intros Hx Hy Hz. apply intersect_true_iff. unfold Rgt. tauto.
  - intros Hab. apply intersect_true_iff in Hab.
    destruct Hab as (H1 & H2 & H3 & H4 & H5 & H6).
    apply intersect_true_iff. unfold plus, box6, Min, Max, Rgt in *.
    cbn [min_ max_ v3x v3y v3z].
    repeat split; minmax.
Qed.

(** At the real numbers, i.e. in exact arithmetic: for a box with
    [Min <= Max] in every coordinate the centre lies within the bounds;
    the diagonal is never negative and it is zero exactly when [Min] and
    [Max] coincide. *)
Theorem center_and_diagonal (b : Box) :
  (v3x (min_ b) <= v3x (max_ b) -> v3y (min_ b) <= v3y (max_ b) ->
   v3z (min_ b) <= v3z (max_ b) -> bounds b (center b))
  /\ 0 <= diagonal b
  /\ (diagonal b = 0 <-> min_ b = max_ b).
Proof.
  split; [|split].
  - unfold bounds, center, v3_scale, v3_add. cbn [v3x v3y v3z].
    intros Hx Hy Hz. repeat split; lra.
  - apply sqrt_pos.
  - unfold diagonal.
    destruct b as [[x0 y0 z0] [x1 y1 z1]]. cbn [min_ max_ v3x v3y v3z].
    pose proof (Rle_0_sqr (x0 - x1)) as Hx.
    pose proof (Rle_0_sqr (y0 - y1)) as Hy.
    pose proof (Rle_0_sqr (z0 - z1)) as Hz. unfold Rsqr in *.
    split.
    + intros Hd. apply sqrt_eq_0 in Hd; [|lra].
      assert ((x0 - x1) * (x0 - x1) = 0) as Ex by lra.
      assert ((y0 - y1) * (y0 - y1) = 0) as Ey by lra.
      assert ((z0 - z1) * (z0 - z1) = 0) as Ez by lra.
      apply Rsqr_0_uniq in Ex. apply Rsqr_0_uniq in Ey.
      apply Rsqr_0_uniq in Ez. f_equal; lra.
    + intros Heq. injection Heq as -> -> ->.
      replace ((x1 - x1) * (x1 - x1) + (y1 - y1) * (y1 - y1)
               + (z1 - z1) * (z1 - z1)) with 0 by ring.
      apply sqrt_0.
Qed.

(** The theorems on two small boxes and a cloud of two points. *)
Lemma plus_bounds_witness :
  bounds (box6 0 0 0 1 1 1) (mkV3 1 0 1)
  /\ bounds (plus (box6 0 0 0 1 1 1) (box6 2 2 2 3 3 3)) (mkV3 1 0 1).
Proof.
  assert (bounds (box6 0 0 0 1 1 1) (mkV3 1 0 1)) as Hb
    by (unfold bounds, box6; cbn [min_ max_ v3x v3y v3z]; lra).
  split; [exact Hb|].
  exact (plus_bounds _ (box6 2 2 2 3 3 3) _ (or_introl Hb)).
Defined.

Lemma fromPointCloud_bounds_witness :
  In (mkV3 1 2 3) (cons (mkV3 0 5 0) (cons (mkV3 1 2 3) nil))
  /\ bounds (fromPointCloud 10 (cons (mkV3 0 5 0) (cons (mkV3 1 2 3) nil)))
       (mkV3 1 2 3).
Proof.
  assert (In (mkV3 1 2 3) (cons (mkV3 0 5 0) (cons (mkV3 1 2 3) nil))) as Hin
    by (right; left; reflexivity).
  split; [exact Hin|].
  exact (proj1 (proj2 (fromPointCloud_bounds 10 _ _)) Hin).
Defined.

Lemma cloud_in_range p :
  In p (cons (mkV3 0 5 0) (cons (mkV3 1 2 3) nil)) ->
  - 10 <= v3x p <= 10 /\ - 10 <= v3y p <= 10 /\ - 10 <= v3z p <= 10.
Proof.
  intros [<- | [<- | []]]; cbn [v3x v3y v3z]; lra.
Qed.

Lemma cloud_in_box p :
  In p (cons (mkV3 0 5 0) (cons (mkV3 1 2 3) nil)) ->
  bounds (box6 (-1) (-1) (-1) 6 6 6) p.
Proof.
  intros [<- | [<- | []]]; unfold bounds, box6;
    cbn [min_ max_ v3x v3y v3z]; lra.
Qed.

Lemma fromPointCloud_least_witness :
  cons (mkV3 0 5 0) (cons (mkV3 1 2 3) nil) <> nil
  /\ bounds (box6 (-1) (-1) (-1) 6 6 6)
       (Min (fromPointCloud 10 (cons (mkV3 0 5 0) (cons (mkV3 1 2 3) nil)))).
Proof.
  assert (cons (mkV3 0 5 0) (cons (mkV3 1 2 3) nil) <> nil) as Hne
    by discriminate.
  split; [exact Hne|].
  exact (proj1 (fromPointCloud_least 10 _ _ Hne cloud_in_range cloud_in_box)).
Defined.

Lemma fromPointCloud_permutation_witness :
  Permutation (cons (mkV3 0 5 0) (cons (mkV3 1 2 3) nil))
    (cons (mkV3 1 2 3) (cons (mkV3 0 5 0) nil))
  /\ fromPointCloud 10 (cons (mkV3 0 5 0) (cons (mkV3 1 2 3) nil))
     = fromPointCloud 10 (cons (mkV3 1 2 3) (cons (mkV3 0 5 0) nil)).
Proof.
  assert (Permutation (cons (mkV3 0 5 0) (cons (mkV3 1 2 3) nil))
            (cons (mkV3 1 2 3) (cons (mkV3 0 5 0) nil))) as Hp
    by apply perm_swap.
  split; [exact Hp|].
  exact (fromPointCloud_permutation 10 _ _ Hp).
Defined.

Lemma intersect_properties_witness :
  (0 < 1 /\ intersect (box6 0 0 0 1 1 1) (box6 0 0 0 1 1 1) = true).
Proof.
  assert (0 < 1) as H01 by lra.
  split; [exact H01|].
  exact (proj1 (proj2 (intersect_properties (box6 0 0 0 1 1 1)
                         (box6 0 0 0 1 1 1) (box6 0 0 0 1 1 1)))
           H01 H01 H01).
Defined.

Lemma center_and_diagonal_witness :
  0 <= 1 /\ bounds (box6 0 0 0 1 1 1) (center (box6 0 0 0 1 1 1)).
Proof.
  assert (0 <= 1) as H01 by lra.
  split; [exact H01|].
  exact (proj1 (center_and_diagonal (box6 0 0 0 1 1 1)) H01 H01 H01).
Defined.

End BoundingBox3Facts.

(* ================================================================= *)
(** ** The unit-norm invariant over sequences of calls *)

Section UnitNormRuns.
Context {M : Type} `{ViewOps M}.
Implicit Type s : Trackball M.






End UnitNormRuns.



(* ================================================================= *)
(** ** A repeated position during a rotation gesture *)


Section RepeatedPosition.
Context {M : Type} `{ViewOps M}.
Implicit Type s : Trackball M.


End RepeatedPosition.

Section RepeatedPositionScenario.
Variable s0 : Trackball Affine.Matrix4f.
Hypothesis s0_idle : rotating s0 = false.
Hypothesis s0_radius : radius s0 = 8 / 10.
Hypothesis s0_viewport : viewport (camera s0) = mkV4 0 0 800 600.

End RepeatedPositionScenario.


(* ================================================================= *)
(** ** The setters of the defaults and the next recomputation *)

Section DefaultSetters.
Context {M : Type} `{ViewOps M}.
Implicit Type s : Trackball M.

(** The zoom operations after a setter of the defaults: the view matrix
    is composed with the new default. *)
Lemma setDefaultTranslation_then_zoom s t k :
  getViewMatrix (increaseZoom k (setDefaultTranslation t s))
  = mat_scale (zoom s * k)
      (mat_translate (translationVector s)
         (mat_rotate (quaternion s)
            (mat_translate t
               (mat_rotate (default_quaternion s) mat_identity))))
  /\ getViewMatrix (decreaseZoom k (setDefaultTranslation t s))
     = mat_scale (zoom s / k)
         (mat_translate (translationVector s)
            (mat_rotate (quaternion s)
               (mat_translate t
                  (mat_rotate (default_quaternion s) mat_identity))))
  /\ getViewMatrix (applyScaleToViewMatrix k (setDefaultTranslation t s))
     = mat_scale k
         (mat_translate (translationVector s)
            (mat_rotate (quaternion s)
               (mat_translate t
                  (mat_rotate (default_quaternion s) mat_identity)))).
Proof. split; [reflexivity|]. split; reflexivity. Qed.

Lemma setDefaultRotation_then_zoom s rot k :
  getViewMatrix (increaseZoom k (setDefaultRotation rot s))
  = mat_scale (zoom s * k)
      (mat_translate (translationVector s)
         (mat_rotate (quaternion s)
            (mat_translate (defaultTranslation s)
               (mat_rotate rot mat_identity))))
  /\ getViewMatrix (decreaseZoom k (setDefaultRotation rot s))
     = mat_scale (zoom s / k)
         (mat_translate (translationVector s)
            (mat_rotate (quaternion s)
               (mat_translate (defaultTranslation s)
                  (mat_rotate rot mat_identity))))
  /\ getViewMatrix (applyScaleToViewMatrix k (setDefaultRotation rot s))
     = mat_scale k
         (mat_translate (translationVector s)
            (mat_rotate (quaternion s)
               (mat_translate (defaultTranslation s)
                  (mat_rotate rot mat_identity)))).
Proof. split; [reflexivity|]. split; reflexivity. Qed.

(** An update of a rotation gesture after a setter of the defaults. *)
Lemma setDefault_then_rotateCamera s t rot p :
  rotating s = true ->
  v2_neqb p (head2 (initialPosition s)) = true ->
  getViewMatrix (rotateCamera p (setDefaultTranslation t s))
  = mat_scale (zoom s)
      (mat_translate (translationVector s)
         (mat_rotate (quaternion (rotateCamera p s))
            (mat_translate t
               (mat_rotate (default_quaternion s) mat_identity))))
  /\ getViewMatrix (rotateCamera p (setDefaultRotation rot s))
     = mat_scale (zoom s)
         (mat_translate (translationVector s)
            (mat_rotate (quaternion (rotateCamera p s))
               (mat_translate (defaultTranslation s)
                  (mat_rotate rot mat_identity)))).
Proof.
  intros Hrot Hguard.
  rewrite (rotateCamera_active s p Hrot), Hguard.
  rewrite (rotateCamera_active (setDefaultTranslation t s) p Hrot).
  rewrite (rotateCamera_active (setDefaultRotation rot s) p Hrot).
  change (initialPosition (setDefaultTranslation t s))
    with (initialPosition s).
  change (initialPosition (setDefaultRotation rot s))
    with (initialPosition s).
  rewrite Hguard. cbv zeta. rewrite !updateViewMatrix_eq.
  split; reflexivity.
Qed.

(** An update of a translation gesture after a setter of the defaults. *)
Lemma setDefault_then_translateCamera s t rot p :
  translating s = true ->
  v2_neqb p (head2 (initialPosition s)) = true ->
  getViewMatrix (translateCamera p (setDefaultTranslation t s))
  = mat_scale (zoom s)
      (mat_translate (translationVector (translateCamera p s))
         (mat_rotate (quaternion s)
            (mat_translate t
               (mat_rotate (default_quaternion s) mat_identity))))
  /\ getViewMatrix (translateCamera p (setDefaultRotation rot s))
     = mat_scale (zoom s)
         (mat_translate (translationVector (translateCamera p s))
            (mat_rotate (quaternion s)
               (mat_translate (defaultTranslation s)
                  (mat_rotate rot mat_identity)))).
Proof.
  intros Htr Hguard.
  rewrite (translateCamera_active s p Htr), Hguard.
  rewrite (translateCamera_active (setDefaultTranslation t s) p Htr).
  rewrite (translateCamera_active (setDefaultRotation rot s) p Htr).
  change (initialPosition (setDefaultTranslation t s))
    with (initialPosition s).
  change (initialPosition (setDefaultRotation rot s))
    with (initialPosition s).
  rewrite Hguard. rewrite !updateViewMatrix_eq.
  split; reflexivity.
Qed.

(** [reset] and [initOpenGLMatrices] after [setDefaultTranslation]
    compose with the new default translation ... *)
Lemma setDefaultTranslation_then_reset s t :
  getViewMatrix (reset (setDefaultTranslation t s))
  = mat_scale 1
      (mat_translate (mkV3 0 0 0)
         (mat_rotate q_identity
            (mat_translate t (mat_rotate q_identity mat_identity))))
  /\ getViewMatrix (initOpenGLMatrices (setDefaultTranslation t s))
     = mat_translate t
         (mat_scale 1
            (mat_translate (mkV3 0 0 0)
               (mat_rotate q_identity
                  (mat_translate t (mat_rotate q_identity mat_identity))))).
Proof. split; reflexivity. Qed.

(** ... while after [setDefaultRotation] they overwrite the new default
    orientation with the identity before anything reads it. *)
Lemma setDefaultRotation_then_reset s rot :
  reset (setDefaultRotation rot s) = reset s
  /\ initOpenGLMatrices (setDefaultRotation rot s) = initOpenGLMatrices s
  /\ default_quaternion (reset (setDefaultRotation rot s)) = q_identity
  /\ default_quaternion (initOpenGLMatrices (setDefaultRotation rot s))
     = q_identity.
Proof.
  destruct s as [[vm pm vp] zm ro tr dr tpm ip fp itp ftp q dq tv dt rad uds].
  split; [reflexivity|]. split; [reflexivity|]. split; reflexivity.
Qed.

(** C10 (as amended).  [setDefaultTranslation] and [setDefaultRotation]
    assign one member each and do not recompute the view matrix: right
    after either call [getViewMatrix] returns the matrix it returned
    before, the composition from the old defaults when it was up to
    date.  A new default translation takes effect at the next operation
    that runs [updateViewMatrix]: a direct call, a zoom operation, an
    update of a gesture, [reset] or [initOpenGLMatrices].  A new default
    orientation takes effect at the next direct call, zoom operation or
    update of a gesture; [reset] and [initOpenGLMatrices] set the default
    orientation back to the identity before they recompute, so after them
    the object is what it would be without the call of the setter. *)
Theorem C10_setDefault_no_recompute s (t : Vector3f) (rot : Quaternion)
    (k : R) (p : Vector2f) :
  (setDefaultTranslation t s = set_defaultTranslation t s
   /\ setDefaultRotation rot s = set_default_quaternion rot s
   /\ getViewMatrix (setDefaultTranslation t s) = getViewMatrix s
   /\ getViewMatrix (setDefaultRotation rot s) = getViewMatrix s
   /\ (viewFresh s ->
       getViewMatrix (setDefaultTranslation t s) = composedView s
       /\ getViewMatrix (setDefaultRotation rot s) = composedView s)
   /\ getViewMatrix (updateViewMatrix (setDefaultTranslation t s))
      = mat_scale (zoom s)
          (mat_translate (translationVector s)
             (mat_rotate (quaternion s)
                (mat_translate t
                   (mat_rotate (default_quaternion s) mat_identity))))
   /\ getViewMatrix (updateViewMatrix (setDefaultRotation rot s))
      = mat_scale (zoom s)
          (mat_translate (translationVector s)
             (mat_rotate (quaternion s)
                (mat_translate (defaultTranslation s)
                   (mat_rotate rot mat_identity)))))
  /\ (getViewMatrix (increaseZoom k (setDefaultTranslation t s))
      = mat_scale (zoom s * k)
          (mat_translate (translationVector s)
             (mat_rotate (quaternion s)
                (mat_translate t
                   (mat_rotate (default_quaternion s) mat_identity))))
      /\ getViewMatrix (decreaseZoom k (setDefaultTranslation t s))
         = mat_scale (zoom s / k)
             (mat_translate (translationVector s)
                (mat_rotate (quaternion s)
                   (mat_translate t
                      (mat_rotate (default_quaternion s) mat_identity))))
      /\ getViewMatrix (applyScaleToViewMatrix k (setDefaultTranslation t s))
         = mat_scale k
             (mat_translate (translationVector s)
                (mat_rotate (quaternion s)
                   (mat_translate t
                      (mat_rotate (default_quaternion s) mat_identity)))))
  /\ (getViewMatrix (increaseZoom k (setDefaultRotation rot s))
      = mat_scale (zoom s * k)
          (mat_translate (translationVector s)
             (mat_rotate (quaternion s)
                (mat_translate (defaultTranslation s)
                   (mat_rotate rot mat_identity))))
      /\ getViewMatrix (decreaseZoom k (setDefaultRotation rot s))
         = mat_scale (zoom s / k)
             (mat_translate (translationVector s)
                (mat_rotate (quaternion s)
                   (mat_translate (defaultTranslation s)
                      (mat_rotate rot mat_identity))))
      /\ getViewMatrix (applyScaleToViewMatrix k (setDefaultRotation rot s))
         = mat_scale k
             (mat_translate (translationVector s)
                (mat_rotate (quaternion s)
                   (mat_translate (defaultTranslation s)
                      (mat_rotate rot mat_identity)))))
  /\ (rotating s = true ->
      v2_neqb p (head2 (initialPosition s)) = true ->
      getViewMatrix (rotateCamera p (setDefaultTranslation t s))
      = mat_scale (zoom s)
          (mat_translate (translationVector s)
             (mat_rotate (quaternion (rotateCamera p s))
                (mat_translate t
                   (mat_rotate (default_quaternion s) mat_identity))))
      /\ getViewMatrix (rotateCamera p (setDefaultRotation rot s))
         = mat_scale (zoom s)
             (mat_translate (translationVector s)
                (mat_rotate (quaternion (rotateCamera p s))
                   (mat_translate (defaultTranslation s)
                      (mat_rotate rot mat_identity)))))
  /\ (translating s = true ->
      v2_neqb p (head2 (initialPosition s)) = true ->
      getViewMatrix (translateCamera p (setDefaultTranslation t s))
      = mat_scale (zoom s)
          (mat_translate (translationVector (translateCamera p s))
             (mat_rotate (quaternion s)
                (mat_translate t
                   (mat_rotate (default_quaternion s) mat_identity))))
      /\ getViewMatrix (translateCamera p (setDefaultRotation rot s))
         = mat_scale (zoom s)
             (mat_translate (translationVector (translateCamera p s))
                (mat_rotate (quaternion s)
                   (mat_translate (defaultTranslation s)
                      (mat_rotate rot mat_identity)))))
  /\ (getViewMatrix (reset (setDefaultTranslation t s))
      = mat_scale 1
          (mat_translate (mkV3 0 0 0)
             (mat_rotate q_identity
                (mat_translate t (mat_rotate q_identity mat_identity))))
      /\ getViewMatrix (initOpenGLMatrices (setDefaultTranslation t s))
         = mat_translate t
             (mat_scale 1
                (mat_translate (mkV3 0 0 0)
                   (mat_rotate q_identity
                      (mat_translate t
                         (mat_rotate q_identity mat_identity))))))
  /\ (reset (setDefaultRotation rot s) = reset s
      /\ initOpenGLMatrices (setDefaultRotation rot s) = initOpenGLMatrices s
      /\ default_quaternion (reset (setDefaultRotation rot s)) = q_identity
      /\ default_quaternion (initOpenGLMatrices (setDefaultRotation rot s))
         = q_identity).
Proof.
  split; [exact (setDefault_frame s t rot)|].
  split; [exact (setDefaultTranslation_then_zoom s t k)|].
  split; [exact (setDefaultRotation_then_zoom s rot k)|].
  split; [exact (setDefault_then_rotateCamera s t rot p)|].
  split; [exact (setDefault_then_translateCamera s t rot p)|].
  split; [exact (setDefaultTranslation_then_reset s t)|].
  exact (setDefaultRotation_then_reset s rot).
Qed.
End DefaultSetters.

(** The top-left entry of the composition at rest with a default
    orientation [rot]. *)
Lemma default_rotation_entry00 (rot : Quaternion) (t : Vector3f) :
  v4a
    (Affine.row0
       (mat_scale 1
          (mat_translate (mkV3 0 0 0)
             (mat_rotate q_identity
                (mat_translate t (mat_rotate rot mat_identity))))))
  = 1 - 2 * (qy rot * qy rot + qz rot * qz rot).
Proof.
  cbn [mat_scale mat_translate mat_rotate mat_identity Affine.affine_ops].
  rewrite rotation_matrix_identity, translation_matrix_zero,
    scaling_matrix_one.
  rewrite !m4_mul_identity_r, m4_mul_identity_l.
  destruct rot as [w x y z]. destruct t as [tx ty tz].
  matrix_entries. ring.
Qed.

(** C10, the claim as stated fails.  On the constructed controller the
    default orientation is set to the half turn about the y axis and
    [reset], which runs [updateViewMatrix], is called next.  The new
    default has not taken effect: [reset] has put the identity in its
    place, the object is what [reset] alone gives, and the view matrix is
    not the composition with the half turn. *)
Lemma C10_reset_discards_new_default_rotation :
  default_quaternion (setDefaultRotation (mkQ 0 0 1 0) Scenario.fresh0)
  = mkQ 0 0 1 0
  /\ default_quaternion
       (reset (setDefaultRotation (mkQ 0 0 1 0) Scenario.fresh0))
     = q_identity
  /\ getViewMatrix (reset (setDefaultRotation (mkQ 0 0 1 0) Scenario.fresh0))
     = getViewMatrix (reset Scenario.fresh0)
  /\ getViewMatrix (reset (setDefaultRotation (mkQ 0 0 1 0) Scenario.fresh0))
     <> mat_scale 1
          (mat_translate (mkV3 0 0 0)
             (mat_rotate q_identity
                (mat_translate (mkV3 0 0 (-4))
                   (mat_rotate (mkQ 0 0 1 0) mat_identity)))).
Proof.
  split; [reflexivity|].
  split; [exact (proj1 (proj2 (proj2
            (setDefaultRotation_then_reset Scenario.fresh0 (mkQ 0 0 1 0)))))|].
  split; [now rewrite (proj1 (setDefaultRotation_then_reset
                                Scenario.fresh0 (mkQ 0 0 1 0)))|].
  rewrite (proj1 (setDefaultRotation_then_reset Scenario.fresh0 (mkQ 0 0 1 0))).
  rewrite reset_view_affine.
  intros Heq. apply (f_equal (fun m => v4a (Affine.row0 m))) in Heq.
  rewrite default_rotation_entry00 in Heq.
  cbn [Affine.translation_matrix Affine.row0 v4a qy qz] in Heq. lra.
Qed.

(** C10 on the scenarios: the constructed controller, a rotation gesture
    begun at the centre and updated at [(600, 300)], and a translation
    gesture begun at the centre and updated at [(600, 300)]. *)
Lemma C10_setDefault_no_recompute_witness :
  (viewFresh Scenario.fresh0
   /\ getViewMatrix (setDefaultTranslation (mkV3 0 0 (-2)) Scenario.fresh0)
      = composedView Scenario.fresh0)
  /\ (rotating Scenario.begun = true
      /\ v2_neqb (mkV2 600 300) (head2 (initialPosition Scenario.begun)) = true
      /\ getViewMatrix
           (rotateCamera (mkV2 600 300)
              (setDefaultRotation (mkQ 0 0 1 0) Scenario.begun))
         = mat_scale (zoom Scenario.begun)
             (mat_translate (translationVector Scenario.begun)
                (mat_rotate
                   (quaternion (rotateCamera (mkV2 600 300) Scenario.begun))
                   (mat_translate (defaultTranslation Scenario.begun)
                      (mat_rotate (mkQ 0 0 1 0) mat_identity)))))
  /\ (translating Scenario.panning = true
      /\ v2_neqb (mkV2 600 300) (head2 (initialPosition Scenario.panning))
         = true
      /\ getViewMatrix
           (translateCamera (mkV2 600 300)
              (setDefaultTranslation (mkV3 0 0 (-2)) Scenario.panning))
         = mat_scale (zoom Scenario.panning)
             (mat_translate
                (translationVector
                   (translateCamera (mkV2 600 300) Scenario.panning))
                (mat_rotate (quaternion Scenario.panning)
                   (mat_translate (mkV3 0 0 (-2))
                      (mat_rotate (default_quaternion Scenario.panning)
                         mat_identity))))).
Proof.
  assert (viewFresh Scenario.fresh0) as Hf.
  { unfold Scenario.fresh0, Trackball_ctor. cbv zeta. apply viewFresh_reset. }
  assert (rotating Scenario.begun = true) as Hrot.
  { unfold Scenario.begun.
    rewrite (scenario_begun Scenario.start eq_refl eq_refl eq_refl).
    reflexivity. }
  assert (v2_neqb (mkV2 600 300) (head2 (initialPosition Scenario.begun))
          = true) as Hguard.
  { rewrite begun_rotation_sample. apply guard_passes_off_origin.
    cbn [v2x]. lra. }
  assert (translating Scenario.panning = true) as Htr.
  { unfold Scenario.panning.
    rewrite (scenario_panning Scenario.start eq_refl eq_refl eq_refl eq_refl).
    reflexivity. }
  assert (v2_neqb (mkV2 600 300) (head2 (initialPosition Scenario.panning))
          = true) as Hguard'.
  { apply panning_guard. cbn [v2x]. lra. }
  split; [split; [exact Hf|]|split; [split; [exact Hrot|split; [exact Hguard|]]
                                    |split; [exact Htr|split; [exact Hguard'|]]]].
  - exact (proj1
      (proj1 (proj2 (proj2 (proj2 (proj2 (proj1
         (C10_setDefault_no_recompute Scenario.fresh0 (mkV3 0 0 (-2))
            q_identity 1 (mkV2 0 0)))))))
       Hf)).
  - exact (proj2
      (proj1 (proj2 (proj2 (proj2
         (C10_setDefault_no_recompute Scenario.begun (mkV3 0 0 (-2))
            (mkQ 0 0 1 0) 1 (mkV2 600 300)))))
       Hrot Hguard)).
  - exact (proj1
      (proj1 (proj2 (proj2 (proj2 (proj2
         (C10_setDefault_no_recompute Scenario.panning (mkV3 0 0 (-2))
            (mkQ 0 0 1 0) 1 (mkV2 600 300))))))
       Htr Hguard')).
Defined.
